(** * google-chat-mcp-server: the search manager

    A shallow embedding of
    [src/providers/google_chat/utils/search_manager.py] and the properties of
    its three search modes (exact, regex, hybrid) and of the mode dispatcher.

    - A Python [str] is a list of code points.
    - The standard-library modules the code calls ([unicodedata], [str.lower],
      [re]) and the float arithmetic are interfaces: every theorem holds for
      each implementation of them.  Two implementations of the arithmetic are
      given (binary64, as CPython computes, and exact rationals), and
      an implementation of the text interfaces that agrees with CPython on
      ASCII text, to run the code on concrete inputs.
    - Python dictionaries whose iteration order matters are association lists
      in insertion order; a message and the table of enabled modes are finite
      maps. *)

From Stdlib Require Import ZArith QArith Floats Uint63 Ascii String List Sorted Permutation Lia.
From stdpp Require Import base option list strings gmap.

Local Open Scope Z_scope.
Local Open Scope list_scope.

(** ** Python strings *)

Definition char := N.
Definition str := list char.

(** [py "abc"] is the Python literal ["abc"] (ASCII literals only). *)
Definition py (s : string) : str := List.map N_of_ascii (list_ascii_of_string s).

Definition apostrophe : char := 39%N.          (* ' *)
Definition right_quote : char := 8217%N.       (* U+2019 *)
Definition left_quote : char := 8216%N.        (* U+2018 *)

Definition str_eqb (a b : str) : bool := bool_decide (a = b).

(** [startswith p s]: [s.startswith(p)]. *)
Fixpoint startswith (p s : str) : bool :=
  match p, s with
  | [], _ => true
  | _ :: _, [] => false
  | a :: p', b :: s' => (a =? b)%N && startswith p' s'
  end.

(** Index of the first occurrence of [sub] in [s]. *)
Fixpoint index_of (sub s : str) : option nat :=
  if startswith sub s then Some 0%nat
  else match s with
       | [] => None
       | _ :: s' => S <$> index_of sub s'
       end.

(** [str_find s sub]: [s.find(sub)], -1 when absent. *)
Definition str_find (s sub : str) : Z :=
  match index_of sub s with
  | Some i => Z.of_nat i
  | None => -1
  end.

(** [str_in sub s]: [sub in s]. *)
Definition str_in (sub s : str) : bool :=
  match index_of sub s with
  | Some _ => true
  | None => false
  end.

(** Scan for non-overlapping occurrences, left to right; [skip] is the number
    of characters still covered by the occurrence just found. *)
Fixpoint count_scan (sub s : str) (skip : nat) : nat :=
  match s with
  | [] => match sub with [] => 1 | _ => 0 end
  | _ :: s' =>
      match skip with
      | S k => count_scan sub s' k
      | O => if startswith sub s
             then S (count_scan sub s' (length sub - 1))
             else count_scan sub s' 0
      end
  end.

(** [str_count s sub]: [s.count(sub)]; [len(s) + 1] for the empty [sub]. *)
Definition str_count (s sub : str) : nat := count_scan sub s 0.

Fixpoint replace_scan (old new s : str) (skip : nat) : str :=
  match s with
  | [] => []
  | c :: s' =>
      match skip with
      | S k => replace_scan old new s' k
      | O => if startswith old s
             then new ++ replace_scan old new s' (length old - 1)
             else c :: replace_scan old new s' 0
      end
  end.

(** [str_replace s old new]: [s.replace(old, new)]; an empty [old] matches
    before every character and at the end. *)
Definition str_replace (s old new : str) : str :=
  match old with
  | [] => new ++ flat_map (fun c => c :: new) s
  | _ => replace_scan old new s 0
  end.

(** [sep.join(parts)]. *)
Fixpoint str_join (sep : str) (parts : list str) : str :=
  match parts with
  | [] => []
  | [p] => p
  | p :: rest => p ++ sep ++ str_join sep rest
  end.

(** [s[:n]] for an integer [n] (a negative [n] counts from the end). *)
Definition slice_to (s : str) (n : Z) : str :=
  if n <? 0 then take (Z.to_nat (Z.of_nat (length s) + n)) s
  else take (Z.to_nat n) s.

(** [str.isspace] on one character: the code points CPython's
    [_PyUnicode_IsWhitespace] accepts. *)
Definition isspace (c : char) : bool :=
  ((9 <=? c) && (c <=? 13) || (28 <=? c) && (c <=? 32) || (c =? 133) || (c =? 160)
   || (c =? 5760) || (8192 <=? c) && (c <=? 8202) || (c =? 8232) || (c =? 8233)
   || (c =? 8239) || (c =? 8287) || (c =? 12288))%N.

Fixpoint lstrip (s : str) : str :=
  match s with
  | c :: s' => if isspace c then lstrip s' else s
  | [] => []
  end.

(** [s.strip()]. *)
Definition strip (s : str) : str := rev (lstrip (rev (lstrip s))).

(** ** The platform interfaces *)

(** [unicodedata.normalize('NFKD', _)], [str.lower], and the equivalence of a
    pattern character and a text character under [re.IGNORECASE]. *)
Class Unicodedata := {
  nfkd : str -> str;
  lower : str -> str;
  ignorecase_eq : char -> char -> bool;
}.

(** What the proofs use of the Unicode tables: text made of ASCII characters is
    its own NFKD form and stays in place inside a longer text, and the same
    holds for [lower] on ASCII text without capital letters. *)
Definition is_ascii (s : str) : bool := forallb (fun c => c <? 128)%N s.
Definition is_plain (s : str) : bool :=
  forallb (fun c => (c <? 128) && negb ((65 <=? c) && (c <=? 90)))%N s.

Class UnicodeLaws (U : Unicodedata) : Prop := {
  nfkd_ascii : forall s, is_ascii s = true -> nfkd s = s;
  nfkd_keeps : forall sub s, is_ascii sub = true -> str_in sub s = true -> str_in sub (nfkd s) = true;
  lower_plain : forall s, is_plain s = true -> lower s = s;
  lower_keeps : forall sub s, is_plain sub = true -> str_in sub s = true -> str_in sub (lower s) = true;
}.

(** The flags [_regex_search] passes to [re.compile]. *)
Record re_flags := { IGNORECASE : bool; DOTALL : bool; UNICODE : bool }.

(** [re.compile], which gives the compiled pattern or raises [re.error]
    ([None]), the exception its caller handles, and [pattern.finditer], which
    yields the spans of the successive matches. *)
Class Re := {
  pattern : Type;
  re_compile : str -> re_flags -> option pattern;
  finditer : pattern -> str -> list (nat * nat);
}.

(** Python floats: the literals of the module, [int] to [float] conversion,
    the four operations and the comparison [<] that [list.sort] uses. *)
Class PyFloat := {
  float : Type;
  f0_0 : float; f0_2 : float; f0_6 : float; f0_9 : float; f1_0 : float; f1_2 : float;
  of_int : Z -> float;
  fadd : float -> float -> float;
  fsub : float -> float -> float;
  fmul : float -> float -> float;
  fdiv : float -> float -> float;
  flt : float -> float -> bool;
}.

Declare Scope pyfloat_scope.
Delimit Scope pyfloat_scope with F.
Infix "+" := fadd : pyfloat_scope.
Infix "-" := fsub : pyfloat_scope.
Infix "*" := fmul : pyfloat_scope.
Infix "/" := fdiv : pyfloat_scope.

(** ** Insertion-ordered dictionaries *)

Section Dict.
Context {V : Type}.

Fixpoint dict_get (k : str) (d : list (str * V)) : option V :=
  match d with
  | [] => None
  | (k', v) :: d' => if str_eqb k k' then Some v else dict_get k d'
  end.

(** [d[k] = v]: an existing key keeps its place, a new key goes last. *)
Fixpoint dict_set (k : str) (v : V) (d : list (str * V)) : list (str * V) :=
  match d with
  | [] => [(k, v)]
  | (k', v') :: d' => if str_eqb k k' then (k, v) :: d' else (k', v') :: dict_set k v d'
  end.

(** [d.update(e)]. *)
Definition dict_update (d e : list (str * V)) : list (str * V) :=
  fold_left (fun acc kv => dict_set kv.1 kv.2 acc) e d.
End Dict.

(** ** Messages, configuration and the manager *)

(** A message is a dictionary; the code reads its ["text"] and ["name"]. *)
Abbreviation message := (gmap string str).

(** [msg.get(key, dflt)]. *)
Definition msg_get (msg : message) (key : string) (dflt : str) : str :=
  default dflt (msg !! key).

(** What [search] does: it returns a value or raises [ValueError]. *)
Inductive result (A : Type) : Type :=
| Ok (a : A)
| ValueError.
Arguments Ok {A} a.
Arguments ValueError {A}.

Section Manager.
Context {U : Unicodedata} {R : Re} {PF : PyFloat}.

Local Open Scope pyfloat_scope.

Record regex_options := {
  ignore_case : option bool;
  dot_all : option bool;
  unicode : option bool;
  max_pattern_length : option Z;
}.

(** One entry of [search_modes] in the YAML file. *)
Record search_mode := {
  name : string;
  enabled : option bool;
  weight : option float;
  options : option regex_options;
}.

Record search_section := {
  default_mode : option string;
  hybrid_weights : option (gmap string float);
}.

Record config := {
  cfg_search_modes : list search_mode;
  cfg_search : option search_section;
}.

Record SearchManager := {
  sm_config : config;
  search_modes : gmap string search_mode;
}.

(** [_initialize_search_modes]: the enabled entries by name, never
    ["semantic"]. *)
Definition _initialize_search_modes (c : config) : gmap string search_mode :=
  fold_left
    (fun modes mode =>
       if default false (enabled mode)
       then if String.eqb (name mode) "semantic" then modes
            else <[name mode := mode]> modes
       else modes)
    (cfg_search_modes c) ∅.

(** [__init__], given the loaded configuration. *)
Definition init (c : config) : SearchManager :=
  {| sm_config := c; search_modes := _initialize_search_modes c |}.

Definition get_default_mode (self : SearchManager) : string :=
  let dflt := default "exact"%string (cfg_search (sm_config self) ≫= default_mode) in
  if String.eqb dflt "semantic" then "exact"%string else dflt.

(** [self.search_modes.get(mode, {}).get("weight", 1.0)]. *)
Definition mode_weight (self : SearchManager) (mode : string) : float :=
  default f1_0 (search_modes self !! mode ≫= weight).

(** NFKD, then both smart single quotes to the ASCII apostrophe. *)
Definition normalize (s : str) : str :=
  str_replace (str_replace (nfkd s) [right_quote] [apostrophe]) [left_quote] [apostrophe].

(** *** [_exact_search] *)

Definition contraction_pairs : list (str * list str) :=
  [ (py "don't", [py "didn't"; py "do not"; py "did not"]);
    (py "didn't", [py "don't"; py "did not"; py "do not"]);
    (py "isn't", [py "wasn't"; py "is not"; py "was not"]);
    (py "wasn't", [py "isn't"; py "was not"; py "is not"]);
    (py "can't", [py "couldn't"; py "cannot"; py "could not"]);
    (py "couldn't", [py "can't"; py "could not"; py "cannot"]);
    (py "won't", [py "wouldn't"; py "will not"; py "would not"]);
    (py "wouldn't", [py "won't"; py "would not"; py "will not"]);
    (py "aren't", [py "weren't"; py "are not"; py "were not"]);
    (py "weren't", [py "aren't"; py "were not"; py "are not"]);
    (py "haven't", [py "hadn't"; py "have not"; py "had not"]);
    (py "hadn't", [py "haven't"; py "had not"; py "have not"]) ].

(** The reverse index: each variant with a space, to the contractions that
    list it. *)
Definition expanded_to_contraction : list (str * list str) :=
  fold_left
    (fun d cv =>
       fold_left
         (fun d variant =>
            if str_in (py " ") variant then
              let d := match dict_get variant d with
                       | None => dict_set variant [] d
                       | Some _ => d
                       end in
              dict_set variant (default [] (dict_get variant d) ++ [cv.1]) d
            else d)
         cv.2 d)
    contraction_pairs [].

(** [contraction_pairs] after [contraction_pairs.update(expanded_to_contraction)]. *)
Definition contraction_table : list (str * list str) :=
  dict_update contraction_pairs expanded_to_contraction.

(** The alternative forms of the lowercased query, the query first. *)
Definition alternatives (query_lower : str) : list str :=
  fold_left
    (fun alts cv =>
       if str_in (lower cv.1) query_lower then
         fold_left
           (fun alts variant =>
              let alt_query := str_replace query_lower (lower cv.1) (lower variant) in
              if negb (str_eqb alt_query query_lower)
                 && negb (existsb (str_eqb alt_query) alts)
              then alts ++ [alt_query] else alts)
           cv.2 alts
       else alts)
    contraction_table [query_lower].

(** The score the exact search gives a text for the alternative [alt_query]
    it contains. *)
Definition exact_score (weight : float) (query_lower text alt_query : str) : float :=
  let match_count := str_count text alt_query in
  let position_factor :=
    match text with
    | [] => of_int 0
    | _ => f1_0 - of_int (str_find text alt_query) / of_int (Z.of_nat (length text) + 1)
    end in
  let score := weight * (f0_6 + f0_2 * of_int (Z.of_nat match_count) + f0_2 * position_factor) in
  if negb (str_eqb alt_query query_lower) then score * f0_9 else score.

(** The inner loop: the first alternative the text contains decides, then
    [break]. *)
Fixpoint exact_match (weight : float) (query_lower text : str) (alts : list str)
  : option float :=
  match alts with
  | [] => None
  | alt_query :: rest =>
      if str_in alt_query text
      then Some (exact_score weight query_lower text alt_query)
      else exact_match weight query_lower text rest
  end.

(** [normalize] then [lower], as applied to the query and to each text. *)
Definition normalize_lower (s : str) : str := lower (normalize s).

Definition exact_step (weight : float) (query_lower : str) (alts : list str)
    (results : list (float * message)) (msg : message) : list (float * message) :=
  let text := normalize_lower (msg_get msg "text" []) in
  match exact_match weight query_lower text alts with
  | Some score => results ++ [(score, msg)]
  | None => results
  end.

(** [results.sort(key=lambda x: x[0], reverse=True)]: a stable sort by
    decreasing score that compares with [<] only. *)
Fixpoint sort_insert (x : float * message) (l : list (float * message))
  : list (float * message) :=
  match l with
  | [] => [x]
  | y :: l' => if flt x.1 y.1 then y :: sort_insert x l' else x :: l
  end.

Definition sort_desc (l : list (float * message)) : list (float * message) :=
  foldr sort_insert [] l.

Definition _exact_search (self : SearchManager) (query : str) (messages : list message)
  : list (float * message) :=
  let query_lower := normalize_lower query in
  let weight := mode_weight self "exact" in
  let alts := alternatives query_lower in
  sort_desc (fold_left (exact_step weight query_lower alts) messages []).

(** *** [_regex_search] *)

Definition contraction_terms : list (str * list str) :=
  [ (py "don't", [py "didn't"; py "don't"; py "do not"; py "did not"]);
    (py "didn't", [py "don't"; py "didn't"; py "did not"; py "do not"]);
    (py "isn't", [py "wasn't"; py "isn't"; py "is not"; py "was not"]);
    (py "wasn't", [py "isn't"; py "wasn't"; py "was not"; py "is not"]);
    (py "can't", [py "couldn't"; py "can't"; py "cannot"; py "could not"]);
    (py "couldn't", [py "can't"; py "couldn't"; py "could not"; py "cannot"]);
    (py "won't", [py "wouldn't"; py "won't"; py "will not"; py "would not"]);
    (py "wouldn't", [py "won't"; py "wouldn't"; py "would not"; py "will not"]) ].

(** The characters [re.escape] puts a backslash before:
    [()[]{}?*+-|^$\.&~#], space, tab, newline, CR, VT and FF. *)
Definition re_special (c : char) : bool :=
  existsb (N.eqb c)
    [40; 41; 91; 93; 123; 125; 63; 42; 43; 45; 124; 94; 36; 92; 46; 38; 126; 35;
     32; 9; 10; 13; 11; 12]%N.

Definition backslash : char := 92%N.

Definition re_escape (s : str) : str :=
  flat_map (fun c => if re_special c then [backslash; c] else [c]) s.

(** The literal an escaped pattern stands for: each backslash is dropped and
    the character after it kept. *)
Fixpoint unescape_scan (p : str) (escaped : bool) : str :=
  match p with
  | [] => []
  | c :: rest =>
      if escaped then c :: unescape_scan rest false
      else if (c =? backslash)%N then unescape_scan rest true
           else c :: unescape_scan rest false
  end.

Definition re_unescape (p : str) : str := unescape_scan p false.

(** The literal [lit] matches, ignoring case, at the start of [s]. *)
Fixpoint imatch (lit s : str) : bool :=
  match lit, s with
  | [], _ => true
  | _ :: _, [] => false
  | a :: lit', b :: s' => ignorecase_eq a b && imatch lit' s'
  end.

Fixpoint isub_scan (lit repl s : str) (skip : nat) : str :=
  match s with
  | [] => []
  | c :: s' =>
      match skip with
      | S k => isub_scan lit repl s' k
      | O => if imatch lit s
             then repl ++ isub_scan lit repl s' (length lit - 1)
             else c :: isub_scan lit repl s' 0
      end
  end.

(** [re.sub(pat, repl, s, flags=re.IGNORECASE)] where [pat] comes from
    [re.escape], so it matches the literal it was made from, and where the only
    backslash escape of [repl] is backslash-space, which [re.sub] copies
    unchanged: each match, found from left to right, becomes [repl]. *)
Definition re_sub_ignorecase (pat repl s : str) : str :=
  match re_unescape pat with
  | [] => repl ++ flat_map (fun c => c :: repl) s
  | lit => isub_scan lit repl s 0
  end.

(** [pattern_part]: the group of all forms of a contraction. *)
Definition pattern_part (alternatives : list str) : str :=
  let parts :=
    fold_left
      (fun parts alt =>
         if str_in (py "'") alt
         then parts ++ [str_replace alt (py "'") (py "['']?")]
         else parts ++ [re_escape alt])
      alternatives [] in
  py "(" ++ str_join (py "|") parts ++ py ")".

(** The loop over [contraction_terms]; the state is
    [(flexible_query, found_contraction)], and nothing changes after [break]. *)
Definition contraction_step (normalized_query : str) (st : str * bool)
    (entry : str * list str) : str * bool :=
  if st.2 then st
  else if str_in (lower entry.1) (lower normalized_query)
       then (re_sub_ignorecase (re_escape entry.1) (pattern_part entry.2) normalized_query, true)
       else st.

(** The pattern text the query is rewritten to, before truncation. *)
Definition flexible_query (query : str) : str :=
  let normalized_query := normalize query in
  let st := fold_left (contraction_step normalized_query) contraction_terms
                      (normalized_query, false) in
  if st.2 then st.1
  else if str_in (py "'") st.1 then str_replace st.1 (py "'") (py "['']?")
       else st.1.

Definition no_options : regex_options :=
  {| ignore_case := None; dot_all := None; unicode := None; max_pattern_length := None |}.

(** [self.search_modes.get("regex", {}).get("options", {})]. *)
Definition regex_options_of (self : SearchManager) : regex_options :=
  default no_options (search_modes self !! "regex"%string ≫= options).

Definition flags_of (o : regex_options) : re_flags :=
  {| IGNORECASE := default true (ignore_case o);
     DOTALL := default false (dot_all o);
     UNICODE := default true (unicode o) |}.

(** The pattern text handed to [re.compile]: cut to [max_pattern_length]. *)
Definition compiled_source (self : SearchManager) (query : str) : str :=
  let max_length := default 1000 (max_pattern_length (regex_options_of self)) in
  let fq := flexible_query query in
  if max_length <? Z.of_nat (length fq) then slice_to fq max_length else fq.

Definition regex_score (weight : float) (normalized_text : str) (matches : list (nat * nat))
  : float :=
  let match_count := length matches in
  let first_pos :=
    match matches with
    | m :: _ => of_int (Z.of_nat m.1) / of_int (Z.of_nat (length normalized_text))
    | [] => f1_0
    end in
  let position_factor := f1_0 - first_pos in
  weight * (f0_6 + f0_2 * of_int (Z.of_nat (Nat.min match_count 5)) + f0_2 * position_factor).

Definition regex_step (weight : float) (p : pattern)
    (results : list (float * message)) (msg : message) : list (float * message) :=
  let normalized_text := normalize (msg_get msg "text" []) in
  match normalized_text with
  | [] => results
  | _ =>
      let matches := finditer p normalized_text in
      match matches with
      | [] => results
      | _ => results ++ [(regex_score weight normalized_text matches, msg)]
      end
  end.

Definition _regex_search (self : SearchManager) (query : str) (messages : list message)
  : list (float * message) :=
  let weight := mode_weight self "regex" in
  match re_compile (compiled_source self query) (flags_of (regex_options_of self)) with
  | Some p => sort_desc (fold_left (regex_step weight p) messages [])
  | None => _exact_search self query messages      (* except re.error *)
  end.

(** *** [_hybrid_search] *)

(** ["m" in self.search_modes and self.search_modes["m"].get("enabled", False)]. *)
Definition mode_enabled (self : SearchManager) (mode : string) : bool :=
  match search_modes self !! mode with
  | Some m => default false (enabled m)
  | None => false
  end.

(** [hybrid_weights.get(mode, dflt)]. *)
Definition hybrid_weight (self : SearchManager) (mode : string) (dflt : float) : float :=
  default dflt (default ∅ (cfg_search (sm_config self) ≫= hybrid_weights) !! mode).

(** The state of the accumulation: [all_results] and [msg_scores]. *)
Definition hybrid_state : Type := list (str * message) * list (str * float).

(** One turn of either accumulation loop, for a mode of hybrid weight [w]. *)
Definition hybrid_step (w : float) (st : hybrid_state) (r : float * message) : hybrid_state :=
  let msg_id := msg_get r.2 "name" [] in
  match msg_id with
  | [] => st
  | _ => (dict_set msg_id r.2 st.1,
          dict_set msg_id (default f0_0 (dict_get msg_id st.2) + r.1 * w) st.2)
  end.

(** [(score, all_results[msg_id])] for each item of [msg_scores]. *)
Definition combined_results (st : hybrid_state) : list (float * message) :=
  omap (fun kv => (fun msg => (kv.2, msg)) <$> dict_get kv.1 st.1) st.2.

Definition _hybrid_search (self : SearchManager) (query : str) (messages : list message)
  : list (float * message) :=
  let query := strip query in
  let st : hybrid_state := ([], []) in
  let st :=
    if mode_enabled self "exact"
    then fold_left (hybrid_step (hybrid_weight self "exact" f1_0))
                   (_exact_search self query messages) st
    else st in
  let st :=
    if mode_enabled self "regex"
    then fold_left (hybrid_step (hybrid_weight self "regex" f1_2))
                   (_regex_search self query messages) st
    else st in
  sort_desc (combined_results st).

(** *** [search] *)

Definition search (self : SearchManager) (query : str) (messages : list message)
    (mode : option string) : result (list (float * message)) :=
  let mode := match mode with None => get_default_mode self | Some m => m end in
  let mode := if String.eqb mode "semantic" then "exact"%string else mode in
  if negb (String.eqb mode "hybrid") && negb (bool_decide (is_Some (search_modes self !! mode)))
  then Ok (_exact_search self query messages)
  else if String.eqb mode "hybrid" then Ok (_hybrid_search self query messages)
  else if String.eqb mode "exact" then Ok (_exact_search self query messages)
  else if String.eqb mode "regex" then Ok (_regex_search self query messages)
  else ValueError.
End Manager.

(** ** Implementations of the interfaces *)

#[local] Set Warnings "-inexact-float".

(** Binary64 arithmetic, as CPython's [float]; [float64_of_int] is exact on
    the integers the code converts (counts, positions and lengths). *)
Definition float64_of_int (z : Z) : PrimFloat.float :=
  if z <? 0 then PrimFloat.opp (PrimFloat.of_uint63 (Uint63.of_Z (- z)))
  else PrimFloat.of_uint63 (Uint63.of_Z z).

Definition binary64 : PyFloat :=
  {| float := PrimFloat.float;
     f0_0 := 0%float; f0_2 := 0.2%float; f0_6 := 0.6%float; f0_9 := 0.9%float;
     f1_0 := 1%float; f1_2 := 1.2%float;
     of_int := float64_of_int;
     fadd := PrimFloat.add; fsub := PrimFloat.sub;
     fmul := PrimFloat.mul; fdiv := PrimFloat.div;
     flt := PrimFloat.ltb |}.

(** Exact rational arithmetic. *)
Definition Qltb (a b : Q) : bool :=
  match Qcompare a b with Lt => true | _ => false end.

Definition rational : PyFloat :=
  {| float := Q;
     f0_0 := 0%Q; f0_2 := (2 # 10)%Q; f0_6 := (6 # 10)%Q; f0_9 := (9 # 10)%Q;
     f1_0 := 1%Q; f1_2 := (12 # 10)%Q;
     of_int := inject_Z;
     fadd := Qplus; fsub := Qminus; fmul := Qmult; fdiv := Qdiv;
     flt := Qltb |}.

(** The Unicode functions on ASCII text: NFKD changes nothing, [lower] and
    case-insensitive comparison act on the letters A to Z. *)
Definition ascii_lower (c : char) : char :=
  if ((65 <=? c) && (c <=? 90))%N then (c + 32)%N else c.

Definition ascii_unicode : Unicodedata :=
  {| nfkd := fun s => s;
     lower := List.map ascii_lower;
     ignorecase_eq := fun a b => (ascii_lower a =? ascii_lower b)%N |}.

(** A regex engine for patterns that are plain text: a pattern without
    metacharacters compiles to a search for its own text, and every other
    pattern is rejected, as CPython rejects the malformed ones among them. *)
Definition re_metachar (c : char) : bool :=
  existsb (N.eqb c) [40; 41; 91; 93; 123; 125; 63; 42; 43; 124; 94; 36; 92; 46]%N.

Fixpoint literal_spans (ic : bool) (lit s : str) (pos skip : nat) : list (nat * nat) :=
  match s with
  | [] => match lit with [] => [(pos, pos)] | _ => [] end
  | _ :: s' =>
      match skip with
      | S k => literal_spans ic lit s' (S pos) k
      | O =>
          if (if ic then startswith (List.map ascii_lower lit) (List.map ascii_lower s)
              else startswith lit s)
          then (pos, (pos + length lit)%nat) :: literal_spans ic lit s' (S pos) (length lit - 1)
          else literal_spans ic lit s' (S pos) 0
      end
  end.

Definition literal_re : Re :=
  {| pattern := bool * str;
     re_compile := fun src flags =>
       if existsb re_metachar src then None else Some (IGNORECASE flags, src);
     finditer := fun p s => literal_spans p.1 p.2 s 0 0 |}.

(** ** What the theorems assume of the arithmetic *)

(** [<] is a strict weak order on the floats that are numbers ([ordinary]):
    all the rationals, and the binary64 floats other than NaN. *)
Class FloatOrder (PF : PyFloat) (ordinary : float -> Prop) : Prop := {
  flt_asym : forall a b : float, flt a b = true -> flt b a = false;
  flt_negtrans : forall a b c : float,
    ordinary b -> flt a b = false -> flt b c = false -> flt a c = false;
}.



(** ** The claims' own descriptions, to compare the code with *)

Section Described.
Context {U : Unicodedata} {R : Re} {PF : PyFloat}.
Local Open Scope pyfloat_scope.

(** Non-increasing by score: no result scores below a later one. *)
Definition sorted_by_score (l : list (float * message)) : Prop :=
  StronglySorted (fun x y => flt x.1 y.1 = false) l.

(** The scores of the list are numbers. *)
Definition ordinary_scores (ordinary : float -> Prop) (l : list (float * message)) : Prop :=
  Forall (fun r => ordinary r.1) l.

(** The exact-search result for one message: the first alternative, in
    enumeration order, that the normalized lowercased text contains decides;
    [score = weight * (0.6 + 0.2*matchCount + 0.2*positionFactor)], times 0.9
    when that alternative is not the primary query; no result when no
    alternative matches. *)
Definition exact_entry (self : SearchManager) (query : str) (msg : message)
  : option (float * message) :=
  let primary := lower (normalize query) in
  let text := lower (normalize (msg_get msg "text" [])) in
  match List.find (fun alt => str_in alt text) (alternatives primary) with
  | None => None
  | Some alt =>
      let matchCount := of_int (Z.of_nat (str_count text alt)) in
      let positionFactor :=
        if decide (text = []) then of_int 0
        else f1_0 - of_int (str_find text alt) / of_int (Z.of_nat (length text) + 1) in
      let score := mode_weight self "exact" * (f0_6 + f0_2 * matchCount + f0_2 * positionFactor) in
      Some (if decide (alt = primary) then score else score * f0_9, msg)
  end.

(** A variant of a contraction as a pattern: its apostrophe made optional, or
    the variant escaped when it has none. *)
Definition variant_pattern (variant : str) : str :=
  if str_in (py "'") variant then str_replace variant (py "'") (py "['']?")
  else re_escape variant.

Definition alternation_group (variants : list str) : str :=
  py "(" ++ str_join (py "|") (List.map variant_pattern variants) ++ py ")".

(** [out] is [s] with one occurrence of [lit], compared ignoring case,
    replaced by [repl]. *)
Definition replaces_one (lit repl s out : str) : Prop :=
  exists a occ b, s = a ++ occ ++ b /\ length occ = length lit /\ imatch lit occ = true
                  /\ out = a ++ repl ++ b.

(** [out] is [s] with every occurrence of [lit], found from left to right and
    compared ignoring case, replaced by [repl]. *)
Inductive replaces_every (lit repl : str) : str -> str -> Prop :=
| replaces_end : replaces_every lit repl [] []
| replaces_hit occ rest out :
    length occ = length lit -> imatch lit occ = true ->
    replaces_every lit repl rest out ->
    replaces_every lit repl (occ ++ rest) (repl ++ out)
| replaces_miss c rest out :
    imatch lit (c :: rest) = false ->
    replaces_every lit repl rest out ->
    replaces_every lit repl (c :: rest) (c :: out).

(** The first contraction of the regex table, in table order, that the query
    contains when both are lowercased. *)
Definition found_contraction (normalized_query : str) : option (str * list str) :=
  List.find (fun entry => str_in (lower entry.1) (lower normalized_query)) contraction_terms.

(** The rewrite of the query, with the way occurrences of the contraction are
    replaced left open ([replaces_one] or [replaces_every]). *)
Definition rewrites_to (replaces : str -> str -> str -> str -> Prop) (query out : str) : Prop :=
  let normalized_query := normalize query in
  match found_contraction normalized_query with
  | Some entry => replaces entry.1 (alternation_group entry.2) normalized_query out
  | None =>
      if str_in (py "'") normalized_query
      then out = str_replace normalized_query (py "'") (py "['']?")
      else out = normalized_query
  end.

(** What the two accumulation loops meet, in order: the exact results, then
    the regex results, each score times the hybrid weight of its mode; a
    disabled mode gives none. *)
Definition hybrid_results (self : SearchManager) (query : str) (messages : list message)
  : list (float * message) :=
  (if mode_enabled self "exact"
   then List.map (fun r => (r.1 * hybrid_weight self "exact" f1_0, r.2))
                 (_exact_search self (strip query) messages)
   else [])
  ++
  (if mode_enabled self "regex"
   then List.map (fun r => (r.1 * hybrid_weight self "regex" f1_2, r.2))
                 (_regex_search self (strip query) messages)
   else []).

(** The result [r] is for the identity [msg_id]. *)
Definition named (msg_id : str) (r : float * message) : bool :=
  str_eqb (msg_get r.2 "name" []) msg_id.

(** The weighted scores the identity [msg_id] receives, in the order met. *)
Definition contributions (self : SearchManager) (query : str) (messages : list message)
    (msg_id : str) : list (float * message) :=
  List.filter (named msg_id) (hybrid_results self query messages).

(** [0.0 + c1 + c2 + ...]. *)
Definition total (cs : list (float * message)) : float :=
  fold_left (fun acc c => acc + c.1) cs f0_0.

(** The identity of the message of a result. *)
Definition msg_name (r : float * message) : str := msg_get r.2 "name" [].

(** One turn of the accumulation for a contribution already weighted. *)
Definition accumulate (st : hybrid_state) (c : float * message) : hybrid_state :=
  match msg_name c with
  | [] => st
  | _ => (dict_set (msg_name c) c.2 st.1,
          dict_set (msg_name c) (default f0_0 (dict_get (msg_name c) st.2) + c.1) st.2)
  end.

(** The contributions of an identity; the empty identity has none. *)
Definition group (msg_id : str) (cs : list (float * message)) : list (float * message) :=
  match msg_id with
  | [] => []
  | _ => List.filter (named msg_id) cs
  end.

(** The running total of an identity, absent while it has no contribution. *)
Definition opt_total (g : list (float * message)) : option float :=
  match g with
  | [] => None
  | _ => Some (total g)
  end.

(** What [normalize] does to one character after NFKD. *)
Definition fold_quote (c : char) : char :=
  let c := if (c =? right_quote)%N then apostrophe else c in
  if (c =? left_quote)%N then apostrophe else c.
End Described.

(** ** Concrete inputs *)

Definition mk_message (msg_name msg_text : string) : message :=
  {[ "name"%string := py msg_name; "text"%string := py msg_text ]}.

(** A configuration with both modes enabled, of mode weights [w_exact] and
    [w_regex], and the default hybrid weights. *)
Definition example_config {PF : PyFloat} (w_exact w_regex : float) : config :=
  {| cfg_search_modes :=
       [ {| name := "exact"; enabled := Some true; weight := Some w_exact; options := None |};
         {| name := "regex"; enabled := Some true; weight := Some w_regex; options := None |} ];
     cfg_search :=
       Some {| default_mode := Some "exact"%string;
               hybrid_weights := Some {[ "exact"%string := f1_0; "regex"%string := f1_2 ]} |} |}.

Definition example_manager {PF : PyFloat} : SearchManager := init (example_config f1_0 f1_0).

Definition example_messages : list message :=
  [ mk_message "m1" "first"; mk_message "m2" "second"; mk_message "m3" "message" ].

(** Two messages that share the identity ["m1"]. *)
Definition duplicate_messages : list message :=
  [ mk_message "m1" "alpha"; mk_message "m1" "alpha beta" ].


(** ** Construction *)

(** What [__init__] reads: whether the file exists ([os.path.exists]) and the
    configuration [yaml.safe_load] parses from it. *)
Record filesystem {PF : PyFloat} := {
  path_exists : string -> bool;
  yaml_safe_load : string -> config;
}.

(** A call that returns a value or raises [FileNotFoundError]. *)
Inductive construction (A : Type) : Type :=
| Constructed (a : A)
| FileNotFoundError.
Arguments Constructed {A} a.
Arguments FileNotFoundError {A}.

Definition _load_config {PF : PyFloat} (fs : filesystem) (config_path : string)
  : construction config :=
  if negb (path_exists fs config_path) then FileNotFoundError
  else Constructed (yaml_safe_load fs config_path).

(** [SearchManager(config_path)]. *)
Definition __init__ {PF : PyFloat} (fs : filesystem) (config_path : string)
  : construction SearchManager :=
  match _load_config fs config_path with
  | FileNotFoundError => FileNotFoundError
  | Constructed c => Constructed (init c)
  end.

(** ** Further descriptions *)

Section Further.
Context {U : Unicodedata} {R : Re} {PF : PyFloat}.
Local Open Scope pyfloat_scope.

(** The entry of the configuration is enabled and named [mode]. *)
Definition enabled_as (mode : string) (entry : search_mode) : bool :=
  default false (enabled entry) && String.eqb (name entry) mode.

(** The mode [search] dispatches on: the default for [None], and ["exact"]
    in place of ["semantic"]. *)
Definition resolved_mode (self : SearchManager) (mode : option string) : string :=
  let mode := match mode with None => get_default_mode self | Some m => m end in
  if String.eqb mode "semantic" then "exact"%string else mode.

(** The regex-search result for one message under the compiled pattern [p]:
    none for an empty text or a text without match, else
    [weight * (0.6 + 0.2*min(matchCount, 5) + 0.2*(1 - firstStart/len(text)))]. *)
Definition regex_entry (self : SearchManager) (p : pattern) (msg : message)
  : option (float * message) :=
  let text := normalize (msg_get msg "text" []) in
  if decide (text = []) then None
  else match finditer p text with
       | [] => None
       | first :: others =>
           let matchCount := S (length others) in
           let positionFactor :=
             f1_0 - of_int (Z.of_nat first.1) / of_int (Z.of_nat (length text)) in
           Some (mode_weight self "regex"
                 * (f0_6 + f0_2 * of_int (Z.of_nat (Nat.min matchCount 5))
                    + f0_2 * positionFactor), msg)
       end.

(** The score of [r] ties with [s]: neither is below the other. *)
Definition tied (s : float) (r : float * message) : bool :=
  negb (flt r.1 s) && negb (flt s r.1).

(** The score of a text for the query itself, without penalty. *)
Definition direct_score (self : SearchManager) (query_lower text : str) : float :=
  mode_weight self "exact"
  * (f0_6 + f0_2 * of_int (Z.of_nat (str_count text query_lower))
     + f0_2 * match text with
              | [] => of_int 0
              | _ => f1_0 - of_int (str_find text query_lower)
                            / of_int (Z.of_nat (length text) + 1)
              end).
End Further.

(** The query [don’t], written with U+2019. *)
Definition smart_query : str := [100; 111; 110; 8217; 116]%N.

(** A configuration that enables the exact mode and lists the regex mode as
    disabled, and one that lists no mode. *)
Definition exact_only_manager {PF : PyFloat} : SearchManager :=
  init {| cfg_search_modes :=
            [ {| name := "exact"; enabled := Some true; weight := Some f1_0; options := None |};
              {| name := "regex"; enabled := Some false; weight := None; options := None |} ];
          cfg_search := None |}.

Definition bare_manager {PF : PyFloat} : SearchManager :=
  init {| cfg_search_modes := []; cfg_search := None |}.

(** A message whose text holds an unbalanced parenthesis. *)
Definition bracket_messages : list message :=
  [ mk_message "b1" "call f(x now"; mk_message "b2" "nothing" ].

(** A configuration whose regex mode is case-sensitive, with mode weights
    [1.0] and the hybrid weights [h_exact] and [h_regex]. *)
Definition case_config {PF : PyFloat} (h_exact h_regex : float) : config :=
  {| cfg_search_modes :=
       [ {| name := "exact"; enabled := Some true; weight := Some f1_0; options := None |};
         {| name := "regex"; enabled := Some true; weight := Some f1_0;
            options := Some {| ignore_case := Some false; dot_all := None;
                               unicode := None; max_pattern_length := None |} |} ];
     cfg_search :=
       Some {| default_mode := None;
               hybrid_weights :=
                 Some {[ "exact"%string := h_exact; "regex"%string := h_regex ]} |} |}.

(** The hybrid weights [exact: -1.0] and [regex: .nan]. *)
Definition nan_manager : SearchManager (PF := binary64) :=
  init (case_config (PF := binary64) (-1)%float PrimFloat.nan).

(** Three messages that hold the word in lower case, capitalised, and late in
    the text. *)
Definition case_messages : list message :=
  [ mk_message "m1" "message"; mk_message "m2" "Message"; mk_message "m3" "see the message" ].

(** * Properties *)

(** ** The model on small inputs *)

Example str_count_overlap : str_count (py "aaa") (py "aa") = 1%nat.
Proof. reflexivity. Qed.

Example str_count_empty_sub : str_count (py "ab") [] = 3%nat.
Proof. reflexivity. Qed.

Example str_replace_overlap : str_replace (py "aaa") (py "aa") (py "b") = py "ba".
Proof. reflexivity. Qed.

Example str_replace_empty_old : str_replace (py "ab") [] (py "-") = py "-a-b-".
Proof. reflexivity. Qed.

Example str_find_absent : str_find (py "abc") (py "x") = -1.
Proof. reflexivity. Qed.

Example str_find_first : str_find (py "abcabc") (py "bc") = 1.
Proof. reflexivity. Qed.

Example strip_both_ends : strip (py "  a b ") = py "a b".
Proof. reflexivity. Qed.

Example slice_to_negative : slice_to (py "abcd") (-1) = py "abc".
Proof. reflexivity. Qed.

Example re_escape_space : re_escape (py "do not") = py "do\ not".
Proof. reflexivity. Qed.

Example contraction_table_size : length contraction_table = 23%nat.
Proof. reflexivity. Qed.

Example alternatives_cant :
  alternatives (U := ascii_unicode) (py "i can't") = [py "i can't"; py "i couldn't"; py "i cannot"; py "i could not"].
Proof. by vm_compute. Qed.

Example flexible_query_contraction :
  flexible_query (U := ascii_unicode) (py "I Don't")
  = py "I (didn['']?t|don['']?t|do\ not|did\ not)".
Proof. by vm_compute. Qed.

Example flexible_query_apostrophe :
  flexible_query (U := ascii_unicode) (py "it's") = py "it['']?s".
Proof. by vm_compute. Qed.

(** The scenario of the tests: only the message whose text is the query. *)
Example exact_search_scenario :
  List.map (fun r => (r.1, msg_get r.2 "name" []))
    (_exact_search (U := ascii_unicode) (example_manager (PF := binary64)) (py "message")
       example_messages)
  = [(1%float, py "m3")].
Proof. by vm_compute. Qed.

(** An alternative match: [(0.6 + 0.2*1 + 0.2*(1 - 2/16)) * 0.9 = 0.8775]. *)
Example exact_search_penalty :
  List.map (fun r => Qred r.1)
    (_exact_search (U := ascii_unicode) (example_manager (PF := rational)) (py "don't")
       [mk_message "m4" "I did not do it"])
  = [(351 # 400)%Q].
Proof. by vm_compute. Qed.

(** Scores [0.9], [1.0] and [1.15], returned in decreasing order. *)
Example exact_search_order :
  List.map (fun r => (Qred r.1, msg_get r.2 "name" []))
    (_exact_search (U := ascii_unicode) (example_manager (PF := rational)) (py "s")
       example_messages)
  = [((23 # 20)%Q, py "m3"); (1%Q, py "m2"); ((9 # 10)%Q, py "m1")].
Proof. by vm_compute. Qed.

(** A message found by both modes: [1.0 * 1.0 + 1.0 * 1.2]. *)
Example hybrid_both_modes :
  List.map (fun r => (Qred r.1, msg_get r.2 "name" []))
    (_hybrid_search (U := ascii_unicode) (R := literal_re) (example_manager (PF := rational))
       (py " message ") example_messages)
  = [((11 # 5)%Q, py "m3")].
Proof. by vm_compute. Qed.

(** Two messages of one identity: one entry, of the message met last. *)
Example hybrid_duplicates :
  List.map (fun r => (Qred r.1, msg_get r.2 "text" []))
    (_hybrid_search (U := ascii_unicode) (R := literal_re) (example_manager (PF := rational))
       (py "alpha") duplicate_messages)
  = [((22 # 5)%Q, py "alpha beta")].
Proof. by vm_compute. Qed.

Example invalid_regex_scenario :
  _regex_search (U := ascii_unicode) (R := literal_re) (example_manager (PF := binary64))
    (py "bad(pattern") example_messages = [].
Proof. by vm_compute. Qed.

(** ** Strings *)

Lemma startswith_spec (p s : str) :
  startswith p s = true <-> exists r, s = p ++ r.
Proof.
  revert s; induction p as [|a p IH]; intros s; simpl.
  - split; [intros _; by exists s | done].
  - destruct s as [|b s].
    + split; [done | intros [r Hr]; discriminate].
    + rewrite andb_true_iff, N.eqb_eq, IH. split.
      * intros [-> [r ->]]. by exists r.
      * intros [r Hr]. injection Hr as -> ->. eauto.
Qed.


Lemma str_in_spec (sub s : str) :
  str_in sub s = true <-> exists a b, s = a ++ sub ++ b.
Proof.
  unfold str_in. induction s as [|c s IH]; simpl.
  - destruct (startswith sub []) eqn:E.
    + apply startswith_spec in E as [r Hr]. split; [intros _|done].
      exists [], r. done.
    + split; [done|]. intros (a & b & Hab).
      destruct a; [|discriminate]. simpl in Hab.
      assert (startswith sub [] = true) by (apply startswith_spec; eauto). congruence.
  - destruct (startswith sub (c :: s)) eqn:E.
    + apply startswith_spec in E as [r Hr]. split; [intros _|done].
      exists [], r. done.
    + destruct (index_of sub s) as [j|]; simpl.
      * split; [intros _|done].
        destruct IH as [IH _]. destruct (IH eq_refl) as (a & b & ->).
        by exists (c :: a), b.
      * split; [done|]. intros (a & b & Hab). destruct a as [|x a]; simpl in Hab.
        -- assert (startswith sub (c :: s) = true) by (apply startswith_spec; eauto).
           congruence.
        -- injection Hab as -> ->. destruct IH as [_ IH].
           enough (false = true) by done. apply IH. eauto.
Qed.


Lemma str_in_empty (s : str) : str_in [] s = true.
Proof. apply str_in_spec. by exists [], s. Qed.

Lemma str_find_empty (s : str) : str_find s [] = 0.
Proof. unfold str_find. by destruct s. Qed.

Lemma str_count_empty (s : str) : str_count s [] = S (length s).
Proof.
  unfold str_count. induction s as [|c s IH]; simpl; [done|]. by rewrite IH.
Qed.

Lemma str_in_map (f : char -> char) (sub s : str) :
  str_in sub s = true -> str_in (List.map f sub) (List.map f s) = true.
Proof.
  rewrite !str_in_spec. intros (a & b & ->).
  exists (List.map f a), (List.map f b). by rewrite !List.map_app.
Qed.

(** Replacing one character by one character is a map. *)
Lemma str_replace_char (c d : char) (s : str) :
  str_replace s [c] [d] = List.map (fun x => if (x =? c)%N then d else x) s.
Proof.
  unfold str_replace. induction s as [|x s IH]; simpl; [done|].
  rewrite (N.eqb_sym c x). destruct (x =? c)%N; simpl; by rewrite IH.
Qed.

Lemma map_fixed (f : char -> char) (s : str) :
  Forall (fun c => f c = c) s -> List.map f s = s.
Proof. induction 1; simpl; congruence. Qed.

(** ** Sorting and loops *)

Section Sorting.
Context {PF : PyFloat}.

Lemma sort_insert_perm (x : float * message) l : sort_insert x l ≡ₚ x :: l.
Proof.
  induction l as [|y l IH]; simpl; [done|].
  destruct (flt x.1 y.1); [|done].
  rewrite IH. apply Permutation_swap.
Qed.

Lemma sort_desc_perm (l : list (float * message)) : sort_desc l ≡ₚ l.
Proof.
  induction l as [|x l IH]; simpl; [done|].
  rewrite sort_insert_perm. by rewrite IH.
Qed.

Lemma sort_insert_sorted `{!FloatOrder PF ordinary} (x : float * message) l :
  ordinary_scores ordinary l ->
  sorted_by_score l -> sorted_by_score (sort_insert x l).
Proof.
  unfold sorted_by_score, ordinary_scores. intros Hord.
  induction 1 as [|y l Hsorted IH Hy]; simpl.
  - repeat constructor.
  - inversion Hord as [|? ? Hy_ord Hl_ord]; subst.
    destruct (flt x.1 y.1) eqn:E.
    + constructor; [by apply IH|].
      rewrite sort_insert_perm. constructor; [|done].
      by apply flt_asym.
    + constructor; [by constructor|].
      constructor; [done|].
      eapply Forall_impl; [exact Hy|]. intros z Hz. simpl in Hz.
      by apply flt_negtrans with y.1.
Qed.

Lemma sort_desc_sorted `{!FloatOrder PF ordinary} (l : list (float * message)) :
  ordinary_scores ordinary (sort_desc l) -> sorted_by_score (sort_desc l).
Proof.
  intros Hsorted. assert (ordinary_scores ordinary l) as Hord.
  { unfold ordinary_scores in *. by rewrite <- (sort_desc_perm l). }
  clear Hsorted. induction l as [|x l IH]; simpl; [constructor|].
  inversion Hord as [|? ? Hx Hl]; subst.
  apply sort_insert_sorted; [|by apply IH].
  unfold ordinary_scores. by rewrite sort_desc_perm.
Qed.
End Sorting.

(** A loop that appends to [results] the entries it computes is a filter-map. *)
Lemma fold_left_collect {A B : Type} (f : A -> option B) (l : list A) (init : list B) :
  fold_left (fun acc x => match f x with Some y => acc ++ [y] | None => acc end) l init
  = init ++ omap f l.
Proof.
  revert init; induction l as [|x l IH]; intros init; simpl.
  - by rewrite app_nil_r.
  - rewrite IH. destruct (f x); [|done]. by rewrite <- app_assoc.
Qed.

Lemma fold_left_same {A B : Type} (f g : A -> B -> A) (l : list B) (a : A) :
  (forall a b, f a b = g a b) -> fold_left f l a = fold_left g l a.
Proof.
  intros E. revert a; induction l as [|b l IH]; intros a; simpl; [done|].
  by rewrite E, IH.
Qed.

Lemma omap_total {A B : Type} (f : A -> option B) (g : A -> B) (l : list A) :
  (forall x, f x = Some (g x)) -> omap f l = List.map g l.
Proof.
  intros E. induction l as [|x l IH]; [done|].
  cbn [omap list_omap List.map]. by rewrite E, <- IH.
Qed.

(** ** Exact search *)

Section Exact.
Context {U : Unicodedata} {PF : PyFloat}.

Lemma exact_match_find (w : float) (ql text : str) (alts : list str) :
  exact_match w ql text alts
  = exact_score w ql text <$> List.find (fun alt => str_in alt text) alts.
Proof.
  induction alts as [|a alts IH]; simpl; [done|].
  by destruct (str_in a text).
Qed.

Lemma exact_entry_match (self : SearchManager) (query : str) (msg : message) :
  exact_entry self query msg
  = (fun score => (score, msg))
      <$> exact_match (mode_weight self "exact") (normalize_lower query)
            (normalize_lower (msg_get msg "text" [])) (alternatives (normalize_lower query)).
Proof.
  rewrite exact_match_find. unfold exact_entry, normalize_lower.
  destruct (List.find _ _) as [alt|]; simpl; [|done].
  unfold exact_score, str_eqb. f_equal. f_equal.
  - repeat case_decide; repeat case_bool_decide; simpl; try done.
    all: destruct (lower (normalize (msg_get msg "text" []))); done.
Qed.

Lemma exact_loop_collect (self : SearchManager) (query : str) (messages : list message) :
  fold_left (exact_step (mode_weight self "exact") (normalize_lower query)
               (alternatives (normalize_lower query))) messages []
  = omap (exact_entry self query) messages.
Proof.
  rewrite <- (app_nil_l (omap _ _)), <- fold_left_collect.
  apply fold_left_same. intros results msg. unfold exact_step.
  rewrite exact_entry_match. by destruct (exact_match _ _ _ _).
Qed.

Lemma exact_search_perm (self : SearchManager) (query : str) (messages : list message) :
  _exact_search self query messages ≡ₚ omap (exact_entry self query) messages.
Proof. unfold _exact_search. rewrite exact_loop_collect. apply sort_desc_perm. Qed.

(** C1. The exact search returns, sorted, exactly one result for each message
    whose normalized lowercased text contains an alternative of the query,
    scored [weight * (0.6 + 0.2*matchCount + 0.2*positionFactor)] for the first
    such alternative and times 0.9 when it is not the primary query, and no
    result for the other messages. *)
Theorem exact_search_scoring (self : SearchManager) (query : str) (messages : list message) :
  _exact_search self query messages = sort_desc (omap (exact_entry self query) messages)
  /\ _exact_search self query messages ≡ₚ omap (exact_entry self query) messages.
Proof.
  unfold _exact_search. rewrite exact_loop_collect.
  split; [done | apply sort_desc_perm].
Qed.
End Exact.

(** ** The ASCII implementation satisfies the laws *)

Lemma is_plain_fixed (s : str) : is_plain s = true -> Forall (fun c => ascii_lower c = c) s.
Proof.
  unfold is_plain. rewrite forallb_forall, List.Forall_forall.
  intros H c Hc. specialize (H c Hc). unfold ascii_lower.
  apply andb_true_iff in H as [_ H]. by destruct ((65 <=? c) && (c <=? 90))%N.
Qed.

Lemma ascii_unicode_laws : UnicodeLaws ascii_unicode.
Proof.
  split; simpl.
  - done.
  - done.
  - intros s Hs. by apply map_fixed, is_plain_fixed.
  - intros sub s Hsub Hin.
    rewrite <- (map_fixed ascii_lower sub) by by apply is_plain_fixed.
    by apply str_in_map.
Qed.

(** ** Normalization of plain text *)

Section Normalization.
Context {U : Unicodedata} {UL : UnicodeLaws U}.

Lemma normalize_map (s : str) : normalize s = List.map fold_quote (nfkd s).
Proof.
  unfold normalize. rewrite !str_replace_char, List.map_map. done.
Qed.

Lemma is_plain_ascii (s : str) : is_plain s = true -> is_ascii s = true.
Proof.
  unfold is_plain, is_ascii. rewrite !forallb_forall. intros H c Hc.
  specialize (H c Hc). by apply andb_true_iff in H as [H _].
Qed.

Lemma is_ascii_fold_quote (s : str) : is_ascii s = true -> List.map fold_quote s = s.
Proof.
  intros H. apply map_fixed. unfold is_ascii in H.
  rewrite forallb_forall in H. apply List.Forall_forall. intros c Hc.
  specialize (H c Hc). apply N.ltb_lt in H. unfold fold_quote, right_quote, left_quote.
  destruct (N.eqb_spec c 8217); [lia|]. destruct (N.eqb_spec c 8216); [lia|]. done.
Qed.

Lemma normalize_lower_plain (s : str) : is_plain s = true -> normalize_lower s = s.
Proof.
  intros H. unfold normalize_lower. rewrite normalize_map.
  rewrite nfkd_ascii by by apply is_plain_ascii.
  rewrite is_ascii_fold_quote by by apply is_plain_ascii.
  by apply lower_plain.
Qed.

Lemma normalize_lower_keeps (sub s : str) :
  is_plain sub = true -> str_in sub s = true -> str_in sub (normalize_lower s) = true.
Proof.
  intros Hsub Hin. unfold normalize_lower. apply lower_keeps; [done|].
  rewrite normalize_map.
  rewrite <- (is_ascii_fold_quote sub) by by apply is_plain_ascii.
  apply str_in_map, nfkd_keeps; [by apply is_plain_ascii | done].
Qed.

(** [lower] is applied to the strings of the contraction table only, which
    are plain: the alternatives are those computed on ASCII. *)
Lemma fold_left_same_in {A B : Type} (f g : A -> B -> A) (l : list B) (a : A) :
  (forall a b, In b l -> f a b = g a b) -> fold_left f l a = fold_left g l a.
Proof.
  revert a; induction l as [|b l IH]; intros a E; simpl; [done|].
  rewrite E by by left. apply IH. intros; apply E; by right.
Qed.

Lemma contraction_table_plain :
  forallb (fun cv : str * list str => is_plain cv.1 && forallb is_plain cv.2) contraction_table = true.
Proof. by vm_compute. Qed.

Lemma alternatives_ascii (query_lower : str) :
  alternatives (U := U) query_lower = alternatives (U := ascii_unicode) query_lower.
Proof.
  pose proof contraction_table_plain as Hplain. rewrite forallb_forall in Hplain.
  unfold alternatives. apply fold_left_same_in. intros alts cv Hcv.
  specialize (Hplain cv Hcv). apply andb_true_iff in Hplain as [Hk Hvs].
  rewrite (lower_plain cv.1 Hk), (lower_plain (UnicodeLaws := ascii_unicode_laws) cv.1 Hk).
  destruct (str_in cv.1 query_lower); [|done].
  apply fold_left_same_in. intros alts' v Hv.
  rewrite forallb_forall in Hvs. specialize (Hvs v Hv).
  by rewrite (lower_plain v Hvs), (lower_plain (UnicodeLaws := ascii_unicode_laws) v Hvs).
Qed.
End Normalization.

(** ** The dispatcher and the fallbacks *)

Section Dispatch.
Context {U : Unicodedata} {R : Re} {PF : PyFloat}.

Lemma search_exact_mode (self : SearchManager) (query : str) (messages : list message) :
  search self query messages (Some "exact"%string) = Ok (_exact_search self query messages).
Proof.
  unfold search. simpl. by destruct (negb _).
Qed.


(** C5. A mode other than ["hybrid"] that is not an enabled mode is answered
    by the exact search, and no error is raised. *)
Theorem search_unknown_mode_fallback (self : SearchManager) (query : str)
    (messages : list message) (mode : string) :
  mode <> "hybrid"%string ->
  search_modes self !! mode = None ->
  search self query messages (Some mode) = Ok (_exact_search self query messages).
Proof.
  intros Hhybrid Hmode. unfold search.
  destruct (String.eqb_spec mode "semantic") as [->|Hsem].
  - simpl. by destruct (negb _).
  - destruct (String.eqb_spec mode "hybrid") as [|_]; [done|].
    rewrite Hmode. done.
Qed.
End Dispatch.

(** ** Exact search on particular queries *)

Section ExactQueries.
Context {U : Unicodedata} {UL : UnicodeLaws U} {R : Re} {PF : PyFloat}.

Lemma find_is_some {A : Type} (p : A -> bool) (l : list A) (a : A) :
  In a l -> p a = true -> exists b, List.find p l = Some b.
Proof.
  induction l as [|x l IH]; simpl; [done|].
  intros [->|Hin] Hp.
  - rewrite Hp. eauto.
  - destruct (p x); eauto.
Qed.

Lemma exact_search_finds (self : SearchManager) (query alt : str)
    (messages : list message) (msg : message) :
  msg ∈ messages ->
  In alt (alternatives (normalize_lower query)) ->
  str_in alt (normalize_lower (msg_get msg "text" [])) = true ->
  exists score, (score, msg) ∈ _exact_search self query messages.
Proof.
  intros Hmsg Halt Hin.
  destruct (find_is_some (fun a => str_in a (normalize_lower (msg_get msg "text" [])))
              _ alt Halt Hin) as [b Hb].
  assert (exists score, exact_entry self query msg = Some (score, msg)) as [score Hscore].
  { rewrite exact_entry_match, exact_match_find, Hb. simpl. eexists. reflexivity. }
  exists score. rewrite exact_search_perm.
  apply list_elem_of_omap. exists msg. by split.
Qed.

Lemma alternatives_dont :
  alternatives (normalize_lower (py "don't"))
  = [py "don't"; py "didn't"; py "do not"; py "did not"].
Proof.
  rewrite normalize_lower_plain by done. rewrite alternatives_ascii. by vm_compute.
Qed.

Lemma alternatives_didnt :
  alternatives (normalize_lower (py "didn't"))
  = [py "didn't"; py "don't"; py "did not"; py "do not"].
Proof.
  rewrite normalize_lower_plain by done. rewrite alternatives_ascii. by vm_compute.
Qed.

Lemma alternatives_empty : alternatives (normalize_lower []) = [[]].
Proof.
  rewrite normalize_lower_plain by done. rewrite alternatives_ascii. by vm_compute.
Qed.

(** C6. Under exact mode the query ["don't"] finds every message whose text
    contains ["did not"], ["didn't"] or ["do not"], and the query ["didn't"]
    finds every message whose text contains ["don't"]. *)
Theorem contraction_equivalence (self : SearchManager) (messages : list message)
    (msg : message) :
  msg ∈ messages ->
  let text := msg_get msg "text" [] in
  (str_in (py "did not") text = true \/ str_in (py "didn't") text = true
   \/ str_in (py "do not") text = true ->
   exists results score,
     search self (py "don't") messages (Some "exact"%string) = Ok results
     /\ (score, msg) ∈ results)
  /\ (str_in (py "don't") text = true ->
      exists results score,
        search self (py "didn't") messages (Some "exact"%string) = Ok results
        /\ (score, msg) ∈ results).
Proof.
  intros Hmsg text. split.
  - intros Hcase.
    assert (exists alt, In alt (alternatives (normalize_lower (py "don't")))
                        /\ str_in alt (normalize_lower text) = true) as (alt & Halt & Hin).
    { rewrite alternatives_dont.
      destruct Hcase as [H|[H|H]];
        (eexists; split; [|apply normalize_lower_keeps; [|exact H]; done]);
        simpl; tauto. }
    destruct (exact_search_finds self _ alt messages msg Hmsg Halt Hin) as [score Hscore].
    exists (_exact_search self (py "don't") messages), score.
    split; [apply search_exact_mode | done].
  - intros H.
    assert (In (py "don't") (alternatives (normalize_lower (py "didn't")))) as Halt.
    { rewrite alternatives_didnt. simpl; tauto. }
    assert (str_in (py "don't") (normalize_lower text) = true) as Hin
      by (by apply normalize_lower_keeps).
    destruct (exact_search_finds self _ _ messages msg Hmsg Halt Hin) as [score Hscore].
    exists (_exact_search self (py "didn't") messages), score.
    split; [apply search_exact_mode | done].
Qed.

(** C9. For the empty query the exact search returns one result for every
    message of the list, whatever its text. *)
Theorem exact_search_empty_query (self : SearchManager) (messages : list message) :
  List.map snd (_exact_search self [] messages) ≡ₚ messages.
Proof.
  rewrite exact_search_perm.
  assert (omap (exact_entry self []) messages
          = List.map (fun msg => (exact_score (mode_weight self "exact") []
                                    (normalize_lower (msg_get msg "text" [])) [], msg))
              messages) as ->.
  { apply omap_total. intros msg.
    rewrite exact_entry_match, alternatives_empty.
    rewrite (normalize_lower_plain []) by done.
    cbn [exact_match]. by rewrite str_in_empty. }
  rewrite List.map_map. cbn [snd]. by rewrite List.map_id.
Qed.
End ExactQueries.

(** ** The rewrite of the query in the regex search *)

Lemma re_unescape_escape (s : str) : re_unescape (re_escape s) = s.
Proof.
  unfold re_unescape, re_escape. induction s as [|c s IH]; simpl; [done|].
  destruct (re_special c) eqn:E; simpl.
  - by rewrite IH.
  - destruct (N.eqb_spec c backslash) as [->|_]; [done|]. by rewrite IH.
Qed.

Lemma fold_left_snoc {A B : Type} (f : A -> B) (l : list A) (init : list B) :
  fold_left (fun acc x => acc ++ [f x]) l init = init ++ List.map f l.
Proof.
  revert init; induction l as [|x l IH]; intros init; simpl.
  - by rewrite app_nil_r.
  - by rewrite IH, <- app_assoc.
Qed.

Lemma pattern_part_group (variants : list str) :
  pattern_part variants = alternation_group variants.
Proof.
  unfold pattern_part, alternation_group.
  rewrite <- (app_nil_l (List.map _ _)), <- fold_left_snoc.
  do 3 f_equal. apply fold_left_same. intros parts alt. unfold variant_pattern.
  by destruct (str_in (py "'") alt).
Qed.

Lemma contraction_terms_nonempty :
  forallb (fun entry : str * list str => negb (str_eqb entry.1 [])) contraction_terms = true.
Proof. by vm_compute. Qed.

Section Rewrite.
Context {U : Unicodedata}.

Lemma imatch_length (lit s : str) : imatch lit s = true -> (length lit <= length s)%nat.
Proof.
  revert s; induction lit as [|a lit IH]; intros [|b s]; simpl; try done; try lia.
  intros H. apply andb_true_iff in H as [_ H]. apply IH in H. lia.
Qed.

Lemma imatch_take (lit s : str) :
  imatch lit s = true -> imatch lit (take (length lit) s) = true.
Proof.
  revert s; induction lit as [|a lit IH]; intros [|b s]; simpl; try done.
  intros H. apply andb_true_iff in H as [-> H]. by apply IH.
Qed.

Lemma isub_scan_skip (lit repl s : str) (k : nat) :
  isub_scan lit repl s k = isub_scan lit repl (drop k s) 0.
Proof.
  revert k; induction s as [|c s IH]; intros [|k]; simpl; try done.
Qed.

Lemma isub_scan_replaces (lit repl : str) (n : nat) (s : str) :
  lit <> [] -> (length s <= n)%nat ->
  replaces_every lit repl s (isub_scan lit repl s 0).
Proof.
  intros Hlit. revert s; induction n as [|n IH]; intros [|c s] Hlen; simpl in *;
    try lia; try constructor.
  destruct (imatch lit (c :: s)) eqn:E.
  - rewrite isub_scan_skip.
    pose proof (imatch_length _ _ E) as Hle. pose proof (imatch_take _ _ E) as Htake.
    destruct lit as [|a lit]; [done|]. simpl in Hle.
    replace (c :: s) with (take (length (a :: lit)) (c :: s) ++ drop (length lit) s)
      by (simpl; by rewrite take_drop).
    replace (length (a :: lit) - 1)%nat with (length lit) by (simpl; lia).
    apply replaces_hit; [rewrite length_take; simpl; lia | done |].
    apply IH. rewrite length_drop. lia.
  - apply replaces_miss; [done|]. apply IH. lia.
Qed.

Lemma contraction_loop_found (nq : str) (terms : list (str * list str)) (fq : str) :
  fold_left (contraction_step nq) terms (fq, true) = (fq, true).
Proof. induction terms as [|e terms IH]; simpl; [done|]. exact IH. Qed.

Lemma contraction_loop_find (nq : str) (terms : list (str * list str)) :
  fold_left (contraction_step nq) terms (nq, false)
  = match List.find (fun entry => str_in (lower entry.1) (lower nq)) terms with
    | Some entry => (re_sub_ignorecase (re_escape entry.1) (pattern_part entry.2) nq, true)
    | None => (nq, false)
    end.
Proof.
  induction terms as [|e terms IH]; simpl; [done|].
  unfold contraction_step at 2. simpl.
  destruct (str_in (lower e.1) (lower nq)); [|exact IH].
  apply contraction_loop_found.
Qed.

(** C7, as the code has it. The query is rewritten for the first contraction
    of the regex table that it contains ignoring case: every occurrence of
    that contraction, found from left to right, is replaced by the group of
    all its variants, each with its apostrophe made optional; when the query
    contains no contraction of the table, each of its apostrophes is made
    optional. *)
Theorem regex_query_rewrite (query : str) :
  rewrites_to replaces_every query (flexible_query query).
Proof.
  unfold rewrites_to, flexible_query, found_contraction.
  rewrite contraction_loop_find.
  destruct (List.find _ contraction_terms) as [entry|] eqn:E; simpl.
  - apply find_some in E as [Hin _].
    pose proof contraction_terms_nonempty as Hne. rewrite forallb_forall in Hne.
    specialize (Hne entry Hin). unfold str_eqb in Hne.
    apply negb_true_iff, bool_decide_eq_false in Hne.
    unfold re_sub_ignorecase. rewrite re_unescape_escape, pattern_part_group.
    destruct entry.1 as [|a lit] eqn:E1; [done|].
    by apply isub_scan_replaces with (n := length (normalize query)).
  - by destruct (str_in (py "'") (normalize query)).
Qed.
End Rewrite.

(** C7, as stated, fails for a query that holds the contraction twice: both
    occurrences of ["don't"] are replaced, not a single one. *)
Lemma regex_query_rewrite_single_fails :
  ~ rewrites_to (U := ascii_unicode) (replaces_one (U := ascii_unicode))
      (py "don't don't") (flexible_query (U := ascii_unicode) (py "don't don't")).
Proof.
  unfold rewrites_to.
  change (found_contraction (U := ascii_unicode) (normalize (U := ascii_unicode) (py "don't don't")))
    with (Some (py "don't", [py "didn't"; py "don't"; py "do not"; py "did not"])).
  intros (a & occ & b & Hs & Hocc & _ & Hout).
  apply (f_equal length) in Hs, Hout.
  rewrite !length_app in Hs, Hout. rewrite Hocc in Hs.
  assert (length (normalize (U := ascii_unicode) (py "don't don't")) = 11%nat) as E1
    by (by vm_compute).
  assert (length (flexible_query (U := ascii_unicode) (py "don't don't")) = 79%nat) as E2
    by (by vm_compute).
  assert (length (alternation_group [py "didn't"; py "don't"; py "do not"; py "did not"])
          = 39%nat) as E3 by (by vm_compute).
  cbn [fst snd] in Hs, Hout. rewrite E1 in Hs. rewrite E2, E3 in Hout.
  change (length (py "don't")) with 5%nat in Hs. lia.
Qed.

(** ** Insertion-ordered dictionaries *)

Section DictFacts.
Context {V : Type}.
Implicit Types (d : list (str * V)) (k : str) (v : V).

Lemma str_eqb_eq (a b : str) : str_eqb a b = true <-> a = b.
Proof. unfold str_eqb. apply bool_decide_eq_true. Qed.

Lemma str_eqb_refl (a : str) : str_eqb a a = true.
Proof. by apply str_eqb_eq. Qed.

Lemma str_eqb_ne (a b : str) : a <> b -> str_eqb a b = false.
Proof. intros H. unfold str_eqb. by apply bool_decide_eq_false. Qed.

Lemma dict_get_set_eq d k v : dict_get k (dict_set k v d) = Some v.
Proof.
  induction d as [|[k' v'] d IH]; simpl.
  - by rewrite str_eqb_refl.
  - destruct (str_eqb k k') eqn:E; simpl; [by rewrite str_eqb_refl|].
    by rewrite E.
Qed.

Lemma dict_get_set_ne d k k' v : k <> k' -> dict_get k' (dict_set k v d) = dict_get k' d.
Proof.
  intros Hne. induction d as [|[k0 v0] d IH]; simpl.
  - by rewrite str_eqb_ne by congruence.
  - destruct (str_eqb k k0) eqn:E; simpl.
    + apply str_eqb_eq in E as <-. by rewrite !str_eqb_ne by congruence.
    + by rewrite IH.
Qed.

Lemma dict_set_keys d k v k' :
  In k' (List.map fst (dict_set k v d)) <-> k' = k \/ In k' (List.map fst d).
Proof.
  induction d as [|[k0 v0] d IH]; simpl.
  - intuition.
  - destruct (str_eqb k k0) eqn:E; simpl.
    + apply str_eqb_eq in E as <-. intuition.
    + rewrite IH. intuition.
Qed.

Lemma dict_set_NoDup d k v :
  List.NoDup (List.map fst d) -> List.NoDup (List.map fst (dict_set k v d)).
Proof.
  induction d as [|[k0 v0] d IH]; simpl; intros Hnd.
  - constructor; [simpl; tauto | constructor].
  - inversion Hnd as [|? ? Hnotin Hnd']; subst.
    destruct (str_eqb k k0) eqn:E; simpl.
    + apply str_eqb_eq in E as <-. by constructor.
    + constructor; [|by apply IH].
      rewrite dict_set_keys. intros [->|Hin]; [|done].
      by rewrite str_eqb_refl in E.
Qed.

Lemma dict_get_In d k v : dict_get k d = Some v -> In (k, v) d.
Proof.
  induction d as [|[k0 v0] d IH]; simpl; [done|].
  destruct (str_eqb k k0) eqn:E.
  - apply str_eqb_eq in E as <-. intros [= <-]. by left.
  - intros H. right. by apply IH.
Qed.

Lemma dict_In_get d k v : List.NoDup (List.map fst d) -> In (k, v) d -> dict_get k d = Some v.
Proof.
  induction d as [|[k0 v0] d IH]; simpl; [done|].
  intros Hnd [Heq|Hin]; inversion Hnd as [|? ? Hnotin Hnd']; subst.
  - injection Heq as -> ->. by rewrite str_eqb_refl.
  - destruct (str_eqb k k0) eqn:E; [|by apply IH].
    apply str_eqb_eq in E as <-. exfalso. apply Hnotin.
    change k with (fst (k, v)). by apply in_map.
Qed.
End DictFacts.

(** ** Hybrid search *)

Section Hybrid.
Context {U : Unicodedata} {R : Re} {PF : PyFloat}.
Local Open Scope pyfloat_scope.

Lemma fold_hybrid_step (w : float) (rs : list (float * message)) (st : hybrid_state) :
  fold_left (hybrid_step w) rs st
  = fold_left accumulate (List.map (fun r => (r.1 * w, r.2)) rs) st.
Proof.
  revert st; induction rs as [|r rs IH]; intros st; simpl; [done|].
  rewrite IH. f_equal.
Qed.

Lemma hybrid_search_accumulate (self : SearchManager) (query : str) (messages : list message) :
  _hybrid_search self query messages
  = sort_desc (combined_results
                 (fold_left accumulate (hybrid_results self query messages) ([], []))).
Proof.
  unfold _hybrid_search, hybrid_results. rewrite fold_left_app.
  destruct (mode_enabled self "exact"), (mode_enabled self "regex"); simpl;
    by rewrite ?fold_hybrid_step.
Qed.

Lemma total_snoc (g : list (float * message)) (c : float * message) :
  total (g ++ [c]) = total g + c.1.
Proof. unfold total. by rewrite fold_left_app. Qed.

Lemma opt_total_snoc (g : list (float * message)) (c : float * message) :
  opt_total (g ++ [c]) = Some (default f0_0 (opt_total g) + c.1).
Proof.
  unfold opt_total. destruct g as [|x g]; simpl; [done|].
  f_equal. apply (total_snoc (x :: g)).
Qed.

Lemma group_snoc_other (msg_id : str) (cs : list (float * message)) (c : float * message) :
  msg_name c <> msg_id -> group msg_id (cs ++ [c]) = group msg_id cs.
Proof.
  intros Hne. unfold group. destruct msg_id; [done|].
  rewrite List.filter_app. simpl. unfold named at 2. fold (msg_name c).
  rewrite str_eqb_ne by done. by rewrite app_nil_r.
Qed.

Lemma group_snoc_same (cs : list (float * message)) (c : float * message) :
  msg_name c <> [] -> group (msg_name c) (cs ++ [c]) = group (msg_name c) cs ++ [c].
Proof.
  intros Hne. unfold group. destruct (msg_name c) eqn:E; [done|].
  rewrite List.filter_app. simpl. unfold named at 2. fold (msg_name c).
  by rewrite E, str_eqb_refl.
Qed.

Lemma group_empty_name (cs : list (float * message)) (c : float * message) (msg_id : str) :
  msg_name c = [] -> group msg_id (cs ++ [c]) = group msg_id cs.
Proof.
  intros E. destruct (decide (msg_id = [])) as [->|Hne]; [done|].
  apply group_snoc_other. by rewrite E.
Qed.

(** The state after the two loops, in terms of the contributions met. *)
Lemma accumulate_state (cs : list (float * message)) :
  let st := fold_left accumulate cs ([], []) in
  List.NoDup (List.map fst st.2)
  /\ (forall msg_id, dict_get msg_id st.2 = opt_total (group msg_id cs))
  /\ (forall msg_id, dict_get msg_id st.1 = last (List.map snd (group msg_id cs))).
Proof.
  induction cs as [|c cs IH] using rev_ind; simpl.
  - split; [constructor|]. split; intros msg_id; by destruct msg_id.
  - rewrite fold_left_app. simpl.
    destruct IH as (Hnd & Hscores & Hmsgs).
    set (st := fold_left accumulate cs ([], [])) in *.
    unfold accumulate. destruct (msg_name c) as [|x n] eqn:E.
    + split; [done|]. split; intros msg_id; by rewrite group_empty_name.
    + rewrite <- E. assert (msg_name c <> []) as Hne by by rewrite E.
      simpl. split; [by apply dict_set_NoDup|]. split; intros msg_id.
      * destruct (decide (msg_name c = msg_id)) as [<-|Hother].
        -- rewrite dict_get_set_eq, group_snoc_same, opt_total_snoc by done.
           by rewrite Hscores.
        -- rewrite dict_get_set_ne, group_snoc_other by done. apply Hscores.
      * destruct (decide (msg_name c = msg_id)) as [<-|Hother].
        -- rewrite dict_get_set_eq, group_snoc_same by done.
           rewrite List.map_app. cbn [List.map]. by rewrite last_snoc.
        -- rewrite dict_get_set_ne, group_snoc_other by done. apply Hmsgs.
Qed.

Lemma group_named (msg_id : str) (cs : list (float * message)) (c : float * message) :
  In c (group msg_id cs) -> msg_name c = msg_id /\ msg_id <> [] /\ In c cs.
Proof.
  unfold group. destruct msg_id as [|x n] eqn:E; [done|]. rewrite <- E.
  rewrite filter_In. intros [Hin Hnamed]. apply str_eqb_eq in Hnamed.
  repeat split; [done | by rewrite E | done].
Qed.

Lemma last_In {A : Type} (l : list A) (x : A) : last l = Some x -> In x l.
Proof.
  intros H. apply last_Some in H as [l' ->]. apply in_or_app. right. by left.
Qed.

(** Each entry of [msg_scores] gives one combined result. *)
Lemma combined_results_spec (cs : list (float * message)) (r : float * message) :
  In r (combined_results (fold_left accumulate cs ([], [])))
  <-> msg_name r <> []
      /\ opt_total (group (msg_name r) cs) = Some r.1
      /\ last (List.map snd (group (msg_name r) cs)) = Some r.2.
Proof.
  destruct (accumulate_state cs) as (Hnd & Hscores & Hmsgs).
  set (st := fold_left accumulate cs ([], [])) in *.
  unfold combined_results. rewrite <- list_elem_of_In, list_elem_of_omap. split.
  - intros ([msg_id score] & Hin & Hr). simpl in Hr.
    apply list_elem_of_In in Hin. apply dict_In_get in Hin; [|done].
    destruct (dict_get msg_id st.1) as [msg|] eqn:Hmsg; [|done].
    injection Hr as <-. rewrite Hscores in Hin. rewrite Hmsgs in Hmsg.
    assert (msg_get msg "name" [] = msg_id /\ msg_id <> []) as [Hname Hne].
    { apply last_In, in_map_iff in Hmsg as ([s m] & <- & Hc).
      apply group_named in Hc. tauto. }
    unfold msg_name. simpl. rewrite Hname. done.
  - intros (Hne & Hscore & Hmsg). exists (msg_name r, r.1). split.
    + apply list_elem_of_In, dict_get_In. by rewrite Hscores.
    + simpl. rewrite Hmsgs, Hmsg. simpl. by destruct r.
Qed.

Lemma combined_results_names (cs : list (float * message)) :
  List.NoDup (List.map msg_name (combined_results (fold_left accumulate cs ([], [])))).
Proof.
  destruct (accumulate_state cs) as (Hnd & Hscores & Hmsgs).
  set (st := fold_left accumulate cs ([], [])) in *.
  assert (forall kv, In kv st.2 ->
            exists msg, dict_get kv.1 st.1 = Some msg /\ msg_get msg "name" [] = kv.1) as Hall.
  { intros [msg_id score] Hin. simpl. apply dict_In_get in Hin; [|done].
    rewrite Hscores in Hin. rewrite Hmsgs.
    destruct (group msg_id cs) as [|c g] eqn:Eg; [done|].
    destruct (last (List.map snd (group msg_id cs))) as [msg|] eqn:El.
    - rewrite <- Eg, El. exists msg. split; [done|].
      apply last_In, in_map_iff in El as ([s m] & <- & Hc).
      apply group_named in Hc. tauto.
    - rewrite Eg in El. by apply last_None in El. }
  unfold combined_results.
  assert (List.map msg_name
            (omap (fun kv => (fun msg => (kv.2, msg)) <$> dict_get kv.1 st.1) st.2)
          = List.map fst st.2) as ->; [|done].
  clear Hnd Hscores. induction st.2 as [|kv l IH]; [done|].
  destruct (Hall kv (or_introl eq_refl)) as (msg & Hget & Hname).
  cbn [omap list_omap List.map]. rewrite Hget. simpl.
  rewrite <- IH by (intros; apply Hall; by right).
  unfold msg_name at 1. simpl. by rewrite Hname.
Qed.
Lemma filter_none {A : Type} (f : A -> str) (k : str) (l : list A) :
  (forall y, In y l -> f y <> k) -> List.filter (fun y => str_eqb (f y) k) l = [].
Proof.
  induction l as [|a l IH]; simpl; [done|]. intros H.
  rewrite str_eqb_ne by (apply H; by left). apply IH. intros; apply H; by right.
Qed.

Lemma filter_unique {A : Type} (f : A -> str) (l : list A) (x : A) :
  List.NoDup (List.map f l) -> In x l ->
  List.filter (fun y => str_eqb (f y) (f x)) l = [x].
Proof.
  induction l as [|a l IH]; simpl; [done|].
  intros Hnd Hin. inversion Hnd as [|? ? Hnotin Hnd']; subst.
  destruct Hin as [->|Hin].
  - rewrite str_eqb_refl. f_equal. apply filter_none.
    intros y Hy Heq. apply Hnotin. rewrite <- Heq. by apply in_map.
  - rewrite str_eqb_ne; [by apply IH|].
    intros Heq. apply Hnotin. rewrite Heq. by apply in_map.
Qed.

Lemma group_contributions (self : SearchManager) (query : str) (messages : list message)
    (msg_id : str) :
  msg_id <> [] ->
  group msg_id (hybrid_results self query messages) = contributions self query messages msg_id.
Proof. intros Hne. unfold group, contributions. by destruct msg_id. Qed.

Lemma opt_total_Some (g : list (float * message)) (x : float) :
  opt_total g = Some x <-> g <> [] /\ x = total g.
Proof.
  unfold opt_total. destruct g as [|c g].
  - split; [done | by intros [? _]].
  - split; [by intros [= <-] | by intros [_ ->]].
Qed.

(** The results of the hybrid search, entry by entry. *)
Lemma hybrid_search_entry (self : SearchManager) (query : str) (messages : list message)
    (r : float * message) :
  In r (_hybrid_search self query messages)
  <-> msg_name r <> []
      /\ contributions self query messages (msg_name r) <> []
      /\ r.1 = total (contributions self query messages (msg_name r))
      /\ last (List.map snd (contributions self query messages (msg_name r))) = Some r.2.
Proof.
  rewrite hybrid_search_accumulate.
  rewrite <- !list_elem_of_In, sort_desc_perm, list_elem_of_In, combined_results_spec.
  split.
  - intros (Hne & Hscore & Hmsg). rewrite group_contributions in Hscore, Hmsg by done.
    apply opt_total_Some in Hscore. tauto.
  - intros (Hne & Hg & Hscore & Hmsg). rewrite group_contributions by done.
    split; [done|]. split; [|done]. by apply opt_total_Some.
Qed.

Lemma hybrid_search_names (self : SearchManager) (query : str) (messages : list message) :
  List.NoDup (List.map msg_name (_hybrid_search self query messages)).
Proof.
  rewrite hybrid_search_accumulate.
  eapply Permutation_NoDup; [|apply combined_results_names].
  apply Permutation_map. symmetry. apply sort_desc_perm.
Qed.

(** C3. The hybrid search returns at most one entry per identity, none for
    the empty identity, and exactly the identities some enabled mode found;
    the score of an entry is the sum, over the enabled modes, of the scores
    the mode gave to that identity times the hybrid weight of the mode. *)
Theorem hybrid_score_accumulation (self : SearchManager) (query : str)
    (messages : list message) :
  let results := _hybrid_search self query messages in
  List.NoDup (List.map (fun r => msg_get r.2 "name" []) results)
  /\ (forall r, In r results ->
        msg_get r.2 "name" [] <> []
        /\ r.1 = total (contributions self query messages (msg_get r.2 "name" [])))
  /\ (forall c, In c (hybrid_results self query messages) ->
        msg_get c.2 "name" [] <> [] ->
        exists r, In r results /\ msg_get r.2 "name" [] = msg_get c.2 "name" []).
Proof.
  split; [apply hybrid_search_names|]. split.
  - intros r Hr. apply hybrid_search_entry in Hr. tauto.
  - intros c Hc Hne. fold (msg_name c) in *.
    set (g := contributions self query messages (msg_name c)).
    assert (In c g) as Hg.
    { apply filter_In. split; [done|]. apply str_eqb_refl. }
    destruct (last (List.map snd g)) as [msg|] eqn:Hlast.
    + assert (msg_get msg "name" [] = msg_name c) as Hname.
      { apply last_In, in_map_iff in Hlast as ([s m] & <- & Hm).
        apply filter_In in Hm as [_ Hm]. by apply str_eqb_eq in Hm. }
      exists (total g, msg). split; [|done].
      apply hybrid_search_entry. unfold msg_name at 1 2 3 4. simpl. rewrite Hname.
      fold g. repeat split; try done. by destruct g.
    + apply last_None in Hlast. destruct g; [done|discriminate].
Qed.

(** C10. The contributions of the messages that share one identity end up in
    a single entry: its score is the sum of all of them, and its message is
    the one of the last contribution met. *)
Theorem hybrid_duplicate_identity (self : SearchManager) (query : str)
    (messages : list message) (msg_id : str) :
  msg_id <> [] ->
  contributions self query messages msg_id <> [] ->
  exists msg,
    last (List.map snd (contributions self query messages msg_id)) = Some msg
    /\ List.filter (named msg_id) (_hybrid_search self query messages)
       = [(total (contributions self query messages msg_id), msg)].
Proof.
  intros Hne Hg. set (g := contributions self query messages msg_id) in *.
  destruct (last (List.map snd g)) as [msg|] eqn:Hlast.
  2: { apply last_None in Hlast. destruct g; [done|discriminate]. }
  exists msg. split; [done|].
  assert (msg_get msg "name" [] = msg_id) as Hname.
  { apply last_In, in_map_iff in Hlast as ([s m] & <- & Hm).
    apply filter_In in Hm as [_ Hm]. by apply str_eqb_eq in Hm. }
  assert (In (total g, msg) (_hybrid_search self query messages)) as Hin.
  { apply hybrid_search_entry. unfold msg_name. simpl. rewrite Hname. by fold g. }
  pose proof (filter_unique msg_name _ _ (hybrid_search_names self query messages) Hin) as E.
  unfold msg_name at 2 in E. simpl in E. rewrite Hname in E. exact E.
Qed.
End Hybrid.

(** ** Order and sign of the scores *)

Section Scores.
Context {U : Unicodedata} {R : Re} {PF : PyFloat}.
Local Open Scope pyfloat_scope.

Lemma regex_search_cases (self : SearchManager) (query : str) (messages : list message) :
  (exists p, _regex_search self query messages
             = sort_desc (fold_left (regex_step (mode_weight self "regex") p) messages []))
  \/ _regex_search self query messages = _exact_search self query messages.
Proof.
  unfold _regex_search. destruct (re_compile _ _) as [p|]; [left; by exists p | by right].
Qed.

Lemma search_cases (self : SearchManager) (query : str) (messages : list message)
    (mode : option string) (results : list (float * message)) :
  search self query messages mode = Ok results ->
  results = _exact_search self query messages
  \/ results = _regex_search self query messages
  \/ results = _hybrid_search self query messages.
Proof.
  unfold search. repeat (case_match; try done); intros [= <-]; tauto.
Qed.

(** C4, amended. The list each search returns is sorted by score,
    non-increasing, provided its scores are numbers: for binary64, provided
    none of them is a NaN. *)
Theorem search_results_sorted `{!FloatOrder PF ordinary} (self : SearchManager) (query : str)
    (messages : list message) :
  (ordinary_scores ordinary (_exact_search self query messages) ->
   sorted_by_score (_exact_search self query messages))
  /\ (ordinary_scores ordinary (_regex_search self query messages) ->
      sorted_by_score (_regex_search self query messages))
  /\ (ordinary_scores ordinary (_hybrid_search self query messages) ->
      sorted_by_score (_hybrid_search self query messages))
  /\ (forall mode results,
        search self query messages mode = Ok results ->
        ordinary_scores ordinary results -> sorted_by_score results).
Proof.
  assert (ordinary_scores ordinary (_exact_search self query messages) ->
          sorted_by_score (_exact_search self query messages)) as Hexact
    by apply sort_desc_sorted.
  assert (ordinary_scores ordinary (_regex_search self query messages) ->
          sorted_by_score (_regex_search self query messages)) as Hregex.
  { destruct (regex_search_cases self query messages) as [[p ->]| ->];
      [apply sort_desc_sorted | done]. }
  assert (ordinary_scores ordinary (_hybrid_search self query messages) ->
          sorted_by_score (_hybrid_search self query messages)) as Hhybrid
    by apply sort_desc_sorted.
  repeat split; try done.
  intros mode results Hsearch.
  by destruct (search_cases _ _ _ _ _ Hsearch) as [-> | [-> | ->]].
Qed.






End Scores.

(** ** The implementations satisfy what the theorems assume *)

Lemma Qltb_true (a b : Q) : Qltb a b = true <-> (a < b)%Q.
Proof.
  unfold Qltb. rewrite Qlt_alt. destruct (a ?= b)%Q; split; congruence.
Qed.

Lemma Qltb_false (a b : Q) : Qltb a b = false <-> (b <= a)%Q.
Proof.
  rewrite <- not_true_iff_false, Qltb_true. split.
  - apply Qnot_lt_le.
  - apply Qle_not_lt.
Qed.

Lemma rational_order : FloatOrder rational (fun _ => True).
Proof.
  split; simpl.
  - intros a b Hab. apply Qltb_true in Hab. apply Qltb_false. by apply Qlt_le_weak.
  - intros a b c _ Hab Hbc. apply Qltb_false in Hab, Hbc. apply Qltb_false.
    by apply Qle_trans with b.
Qed.

(** The comparison of binary64, by cases on the two or three floats. *)
Ltac compare_cases :=
  repeat match goal with
  | H : context [(?a ?= ?b)%Z] |- _ => destruct (Z.compare_spec a b)
  | |- context [(?a ?= ?b)%Z] => destruct (Z.compare_spec a b)
  | H : context [(?a ?= ?b)%positive] |- _ => destruct (Pos.compare_spec a b)
  | |- context [(?a ?= ?b)%positive] => destruct (Pos.compare_spec a b)
  end.

Lemma SFltb_asym (a b : spec_float) : SFltb a b = true -> SFltb b a = false.
Proof.
  unfold SFltb.
  destruct a as [sa|sa| |sa ma ea], b as [sb|sb| |sb mb eb]; simpl; try done;
    repeat match goal with s : bool |- _ => destruct s end; simpl; try done;
    change (Pos.compare_cont Eq ?x ?y) with (Pos.compare x y);
    compare_cases; simpl; subst; try done; try lia.
Qed.

Lemma SFltb_negtrans (a b c : spec_float) :
  b <> S754_nan -> SFltb a b = false -> SFltb b c = false -> SFltb a c = false.
Proof.
  unfold SFltb.
  destruct a as [sa|sa| |sa ma ea], b as [sb|sb| |sb mb eb], c as [sc|sc| |sc mc ec];
    simpl; try done;
    repeat match goal with s : bool |- _ => destruct s end; simpl; try done;
    change (Pos.compare_cont Eq ?x ?y) with (Pos.compare x y);
    intros _; compare_cases; simpl; subst; try done; try lia.
Qed.

Lemma is_nan_Prim2SF (x : PrimFloat.float) :
  PrimFloat.is_nan x = false -> Prim2SF x <> S754_nan.
Proof.
  unfold PrimFloat.is_nan. rewrite FloatAxioms.eqb_spec. unfold SFeqb.
  intros H E. rewrite E in H. simpl in H. discriminate.
Qed.

Lemma binary64_order : FloatOrder binary64 (fun x => PrimFloat.is_nan x = false).
Proof.
  split; simpl.
  - intros a b. rewrite !FloatAxioms.ltb_spec. apply SFltb_asym.
  - intros a b c Hb. rewrite !FloatAxioms.ltb_spec.
    by apply SFltb_negtrans, is_nan_Prim2SF.
Qed.

Lemma ordinary_scores_binary64 (l : list (float (PyFloat := binary64) * message)) :
  forallb (fun r => negb (PrimFloat.is_nan r.1)) l = true ->
  ordinary_scores (PF := binary64) (fun x => PrimFloat.is_nan x = false) l.
Proof.
  unfold ordinary_scores. rewrite forallb_forall, List.Forall_forall.
  intros H r Hr. by apply negb_true_iff, H.
Qed.




(** ** The theorems at concrete inputs *)

Lemma nonempty_length {A : Type} (l : list A) : (0 < length l)%nat -> l <> [].
Proof. destruct l; simpl; [lia | discriminate]. Qed.


Lemma search_unknown_mode_fallback_witness :
  let self := example_manager (PF := binary64) in
  "unsupported"%string <> "hybrid"%string
  /\ search_modes self !! "unsupported"%string = None
  /\ search (U := ascii_unicode) (R := literal_re) self (py "message") example_messages
            (Some "unsupported"%string)
     = Ok (_exact_search (U := ascii_unicode) self (py "message") example_messages).
Proof.
  intros self.
  assert ("unsupported"%string <> "hybrid"%string) as H1 by discriminate.
  assert (search_modes self !! "unsupported"%string = None) as H2 by (vm_compute; reflexivity).
  exact (conj H1 (conj H2
           (@search_unknown_mode_fallback ascii_unicode literal_re binary64
              self (py "message") example_messages "unsupported"%string H1 H2))).
Defined.

Lemma contraction_equivalence_witness :
  let self := example_manager (PF := binary64) in
  let msg := mk_message "m1" "I did not go" in
  msg ∈ [msg]
  /\ str_in (py "did not") (msg_get msg "text" []) = true
  /\ exists results score,
       search (U := ascii_unicode) (R := literal_re) self (py "don't") [msg]
              (Some "exact"%string) = Ok results
       /\ (score, msg) ∈ results.
Proof.
  intros self msg.
  assert (msg ∈ [msg]) as H1 by apply list_elem_of_here.
  assert (str_in (py "did not") (msg_get msg "text" []) = true) as H2
    by (vm_compute; reflexivity).
  exact (conj H1 (conj H2
           (proj1 (@contraction_equivalence ascii_unicode ascii_unicode_laws literal_re binary64
                     self [msg] msg H1)
                  (or_introl H2)))).
Defined.

Lemma exact_search_empty_query_witness :
  List.map snd (_exact_search (U := ascii_unicode) (example_manager (PF := binary64)) []
                  example_messages)
  ≡ₚ example_messages.
Proof.
  exact (@exact_search_empty_query ascii_unicode ascii_unicode_laws binary64
           example_manager example_messages).
Defined.

Lemma hybrid_duplicate_identity_witness :
  let self := example_manager (PF := binary64) in
  let cs := contributions (U := ascii_unicode) (R := literal_re) self (py "alpha")
              duplicate_messages (py "m1") in
  py "m1" <> [] /\ cs <> []
  /\ exists msg,
       last (List.map snd cs) = Some msg
       /\ List.filter (named (py "m1"))
            (_hybrid_search (U := ascii_unicode) (R := literal_re) self (py "alpha")
               duplicate_messages)
          = [(total cs, msg)].
Proof.
  intros self cs.
  assert (py "m1" <> []) as H1 by discriminate.
  assert (cs <> []) as H2 by (apply nonempty_length; vm_compute; lia).
  exact (conj H1 (conj H2
           (@hybrid_duplicate_identity ascii_unicode literal_re binary64
              self (py "alpha") duplicate_messages (py "m1") H1 H2))).
Defined.

Lemma search_results_sorted_witness :
  let self := example_manager (PF := binary64) in
  sorted_by_score (_exact_search (U := ascii_unicode) self (py "s") example_messages)
  /\ sorted_by_score
       (_regex_search (U := ascii_unicode) (R := literal_re) self (py "s") example_messages)
  /\ sorted_by_score
       (_hybrid_search (U := ascii_unicode) (R := literal_re) self (py "s") example_messages).
Proof.
  intros self.
  destruct (@search_results_sorted ascii_unicode literal_re binary64 _ binary64_order
              self (py "s") example_messages) as (Hexact & Hregex & Hhybrid & _).
  split; [|split].
  - apply Hexact, ordinary_scores_binary64. vm_compute. reflexivity.
  - apply Hregex, ordinary_scores_binary64. vm_compute. reflexivity.
  - apply Hhybrid, ordinary_scores_binary64. vm_compute. reflexivity.
Defined.


Lemma search_hybrid_mode {U : Unicodedata} {R : Re} {PF : PyFloat} (self : SearchManager)
    (query : str) (messages : list message) :
  search self query messages (Some "hybrid"%string) = Ok (_hybrid_search self query messages).
Proof. reflexivity. Qed.

Lemma sorted_by_score_scores {PF : PyFloat} (l : list (float * message)) :
  sorted_by_score l -> StronglySorted (fun a b => flt a b = false) (List.map fst l).
Proof.
  induction 1 as [|x l _ IH Hall]; [constructor|].
  cbn [List.map]. constructor; [exact IH|].
  apply List.Forall_map. exact Hall.
Qed.

(** C4, as stated, fails when a score is a NaN: with the hybrid weights
    [exact: -1.0] and [regex: .nan] the query ["Message"] gives the scores
    [-1.0], NaN and [-0.9], in the order the messages were met; no comparison
    with the NaN holds, so the sort moves nothing, and [-1.0] stays before
    [-0.9]. *)
Lemma search_results_unsorted_nan :
  let results := _hybrid_search (U := ascii_unicode) (R := literal_re) nan_manager
                   (py "Message") case_messages in
  search (U := ascii_unicode) (R := literal_re) nan_manager (py "Message") case_messages
         (Some "hybrid"%string) = Ok results
  /\ List.map fst results = [(-1)%float; PrimFloat.nan; (-0.9)%float]
  /\ ~ sorted_by_score results.
Proof.
  intros results. split; [apply search_hybrid_mode|].
  assert (List.map fst results = [(-1)%float; PrimFloat.nan; (-0.9)%float]) as Hscores
    by (vm_compute; reflexivity).
  split; [exact Hscores|]. intros Hsorted.
  apply sorted_by_score_scores in Hsorted. rewrite Hscores in Hsorted.
  inversion Hsorted as [|? ? _ Hall]. inversion Hall as [|? ? _ Hrest].
  inversion Hrest as [|? ? Hlt _]. vm_compute in Hlt. discriminate Hlt.
Qed.


(** * Further properties *)

(** ** The enabled modes and the dispatcher *)

Section Configuration.
Context {U : Unicodedata} {R : Re} {PF : PyFloat}.

Lemma initialize_lookup (c : config) (mode : string) :
  _initialize_search_modes c !! mode
  = if String.eqb mode "semantic" then None
    else last (List.filter (enabled_as mode) (cfg_search_modes c)).
Proof.
  unfold _initialize_search_modes. generalize (cfg_search_modes c). clear c.
  intros entries. induction entries as [|e entries IH] using rev_ind.
  - simpl. by destruct (String.eqb mode "semantic").
  - rewrite fold_left_app, List.filter_app. cbn [fold_left List.filter].
    unfold enabled_as at 2.
    destruct (default false (enabled e)); cbn [andb].
    + destruct (String.eqb_spec (name e) "semantic") as [Hsem|Hsem].
      * rewrite IH. destruct (String.eqb_spec mode "semantic") as [->|Hmode]; [done|].
        rewrite Hsem. destruct (String.eqb_spec "semantic" mode); [congruence|].
        by rewrite app_nil_r.
      * destruct (String.eqb_spec (name e) mode) as [<-|Hother].
        -- rewrite lookup_insert_eq. destruct (String.eqb_spec (name e) "semantic"); [done|].
           by rewrite last_snoc.
        -- rewrite lookup_insert_ne by done. rewrite IH. by rewrite app_nil_r.
    + rewrite IH. by rewrite app_nil_r.
Qed.

Lemma initialize_enabled (c : config) (mode : string) (m : search_mode) :
  _initialize_search_modes c !! mode = Some m ->
  mode <> "semantic"%string /\ name m = mode /\ default false (enabled m) = true
  /\ In m (cfg_search_modes c).
Proof.
  rewrite initialize_lookup.
  destruct (String.eqb_spec mode "semantic") as [->|Hmode]; [done|].
  intros Hlast. apply last_In, filter_In in Hlast as [Hin Hen].
  unfold enabled_as in Hen. apply andb_true_iff in Hen as [Hen Hname].
  apply String.eqb_eq in Hname. done.
Qed.

(** X1. The modes of a manager, from its configuration: ["semantic"] is never
    one of them; any other name gives the last enabled entry of that name, if
    there is one; so each mode is stored under its own name and is enabled. *)
Theorem search_modes_of_config (c : config) :
  search_modes (init c) !! "semantic"%string = None
  /\ (forall mode, mode <> "semantic"%string ->
        search_modes (init c) !! mode
        = last (List.filter (enabled_as mode) (cfg_search_modes c)))
  /\ (forall mode m, search_modes (init c) !! mode = Some m ->
        name m = mode /\ default false (enabled m) = true).
Proof.
  simpl. split; [by rewrite initialize_lookup|]. split.
  - intros mode Hmode. rewrite initialize_lookup.
    by destruct (String.eqb_spec mode "semantic").
  - intros mode m Hm. apply initialize_enabled in Hm. tauto.
Qed.


Lemma search_resolved (self : SearchManager) (query : str) (messages : list message)
    (mode : option string) :
  search self query messages mode
  = let m := resolved_mode self mode in
    if negb (String.eqb m "hybrid") && negb (bool_decide (is_Some (search_modes self !! m)))
    then Ok (_exact_search self query messages)
    else if String.eqb m "hybrid" then Ok (_hybrid_search self query messages)
    else if String.eqb m "exact" then Ok (_exact_search self query messages)
    else if String.eqb m "regex" then Ok (_regex_search self query messages)
    else ValueError.
Proof. reflexivity. Qed.

(** X2. Whenever the mode resolves to ["exact"] (the mode ["exact"] or
    ["semantic"], or no mode with such a default or none), [search] returns
    the exact search, whether or not the exact mode is enabled. *)
Theorem search_exact_resolution (self : SearchManager) (query : str)
    (messages : list message) (mode : option string) :
  resolved_mode self mode = "exact"%string ->
  search self query messages mode = Ok (_exact_search self query messages).
Proof.
  intros Hmode. rewrite search_resolved, Hmode. cbn zeta.
  change (String.eqb "exact" "hybrid") with false.
  change (String.eqb "exact" "exact") with true.
  cbn [negb andb]. by destruct (negb _).
Qed.



(** X5. Construction fails with [FileNotFoundError] exactly when the file
    does not exist (an existing file is taken to be read and parsed);
    otherwise the manager holds the parsed configuration, and of its entries
    only enabled ones other than ["semantic"] as modes. *)
Theorem construction_outcome (fs : filesystem) (config_path : string) :
  (__init__ fs config_path = FileNotFoundError <-> path_exists fs config_path = false)
  /\ (forall self, __init__ fs config_path = Constructed self ->
        sm_config self = yaml_safe_load fs config_path
        /\ search_modes self !! "semantic"%string = None
        /\ (forall mode m, search_modes self !! mode = Some m ->
              In m (cfg_search_modes (sm_config self))
              /\ default false (enabled m) = true)).
Proof.
  unfold __init__, _load_config.
  destruct (path_exists fs config_path); cbn [negb]; split; try done.
  intros self [= <-]. simpl. split; [done|]. split; [by rewrite initialize_lookup|].
  intros mode m Hm. apply initialize_enabled in Hm. tauto.
Qed.
End Configuration.

(** ** More on the exact search *)

Lemma fold_left_invariant {A B : Type} (P : A -> Prop) (f : A -> B -> A) (l : list B) (a : A) :
  P a -> (forall a x, P a -> P (f a x)) -> P (fold_left f l a).
Proof.
  intros Ha Hf. revert a Ha; induction l as [|x l IH]; intros a Ha; simpl; [done|].
  apply IH, Hf, Ha.
Qed.

Lemma fold_left_unchanged {A B : Type} (f : A -> B -> A) (l : list B) (a : A) :
  (forall x, In x l -> f a x = a) -> fold_left f l a = a.
Proof.
  induction l as [|x l IH]; simpl; intros Hf; [done|].
  rewrite Hf by by left. apply IH. intros; apply Hf; by right.
Qed.

Lemma str_in_trans (a b c : str) :
  str_in a b = true -> str_in b c = true -> str_in a c = true.
Proof.
  rewrite !str_in_spec. intros (x & y & ->) (x' & y' & ->).
  exists (x' ++ x), (y ++ y'). by rewrite <- !app_assoc.
Qed.

Lemma snd_omap_filter {A B : Type} (f : A -> option (B * A)) (p : A -> bool) (l : list A) :
  (forall x, if p x then exists y, f x = Some (y, x) else f x = None) ->
  List.map snd (omap f l) = List.filter p l.
Proof.
  intros Hf. induction l as [|x l IH]; [done|].
  cbn [omap list_omap List.filter]. specialize (Hf x).
  destruct (p x); [destruct Hf as [y ->] | rewrite Hf]; simpl; by rewrite <- IH.
Qed.

Lemma snd_omap_sublist {A B : Type} (f : A -> option (B * A)) (l : list A) :
  (forall x y, f x = Some y -> y.2 = x) -> sublist (List.map snd (omap f l)) l.
Proof.
  intros Hf. induction l as [|x l IH]; [constructor|].
  cbn [omap list_omap]. destruct (f x) as [y|] eqn:E; simpl.
  - rewrite (Hf x y E). by constructor.
  - by constructor.
Qed.

Lemma contraction_table_marks :
  forallb (fun cv : str * list str => str_in (py "'") cv.1 || str_in (py " ") cv.1)
          contraction_table = true.
Proof. by vm_compute. Qed.

Section MoreExact.
Context {U : Unicodedata} {PF : PyFloat}.

Lemma alternatives_shape (query_lower : str) :
  exists rest, alternatives query_lower = query_lower :: rest
               /\ List.NoDup (query_lower :: rest).
Proof.
  unfold alternatives.
  apply (fold_left_invariant
           (fun alts => exists rest, alts = query_lower :: rest
                                     /\ List.NoDup (query_lower :: rest))).
  { exists []. split; [done|]. constructor; [simpl; tauto | constructor]. }
  intros alts cv Halts. destruct (str_in (lower cv.1) query_lower); [|done].
  apply fold_left_invariant; [done|]. clear alts Halts.
  intros alts variant (rest & -> & Hnd).
  destruct (negb _ && negb (existsb _ _)) eqn:E; [|by exists rest].
  apply andb_true_iff in E as [_ E]. apply negb_true_iff in E.
  exists (rest ++ [str_replace query_lower (lower cv.1) (lower variant)]).
  split; [done|]. rewrite app_comm_cons. apply List.NoDup_app; [done | |].
  - constructor; [simpl; tauto | constructor].
  - intros x Hx [Hx'|[]].
    assert (existsb (str_eqb x) (query_lower :: rest) = true) as Hex
      by (apply existsb_exists; exists x; split; [done | apply str_eqb_refl]).
    subst x. congruence.
Qed.

(** X6. The alternatives of a query start with the query itself and hold no
    string twice. *)
Theorem alternatives_distinct (query_lower : str) :
  head (alternatives query_lower) = Some query_lower
  /\ List.NoDup (alternatives query_lower).
Proof.
  destruct (alternatives_shape query_lower) as (rest & -> & Hnd). done.
Qed.

Lemma exact_entry_direct (self : SearchManager) (query : str) (msg : message) :
  str_in (normalize_lower query) (normalize_lower (msg_get msg "text" [])) = true ->
  exact_entry self query msg
  = Some (direct_score self (normalize_lower query)
            (normalize_lower (msg_get msg "text" [])), msg).
Proof.
  intros Hin. rewrite exact_entry_match.
  destruct (alternatives_shape (normalize_lower query)) as (rest & -> & _).
  cbn [exact_match]. rewrite Hin. cbn [fmap option_fmap option_map].
  unfold exact_score, direct_score. by rewrite str_eqb_refl.
Qed.

Lemma exact_direct_member (self : SearchManager) (query : str) (messages : list message)
    (msg : message) :
  In msg messages ->
  str_in (normalize_lower query) (normalize_lower (msg_get msg "text" [])) = true ->
  In (direct_score self (normalize_lower query) (normalize_lower (msg_get msg "text" [])), msg)
     (_exact_search self query messages).
Proof.
  intros Hmsg Hin. apply list_elem_of_In. rewrite exact_search_perm. apply list_elem_of_omap.
  exists msg. split; [by apply list_elem_of_In | by apply exact_entry_direct].
Qed.

(** X7. A message whose normalized lowercased text contains the normalized
    lowercased query is returned with the score of the query itself, without
    the penalty of the alternatives, whatever else its text contains. *)
Theorem exact_direct_match (self : SearchManager) (query : str) (messages : list message)
    (msg : message) :
  msg ∈ messages ->
  str_in (normalize_lower query) (normalize_lower (msg_get msg "text" [])) = true ->
  (direct_score self (normalize_lower query) (normalize_lower (msg_get msg "text" [])), msg)
  ∈ _exact_search self query messages.
Proof.
  intros Hmsg Hin. rewrite exact_search_perm. apply list_elem_of_omap.
  exists msg. split; [done|]. by apply exact_entry_direct.
Qed.

(** X8. A query whose normalized lowercased form holds neither an apostrophe
    nor a space has no alternative: the exact search returns exactly the
    messages whose normalized lowercased text contains it. *)
Theorem exact_plain_query `{!UnicodeLaws U} (self : SearchManager) (query : str)
    (messages : list message) :
  str_in (py "'") (normalize_lower query) = false ->
  str_in (py " ") (normalize_lower query) = false ->
  alternatives (normalize_lower query) = [normalize_lower query]
  /\ List.map snd (_exact_search self query messages)
     ≡ₚ List.filter
          (fun msg => str_in (normalize_lower query) (normalize_lower (msg_get msg "text" [])))
          messages.
Proof.
  intros Hquote Hspace.
  assert (alternatives (normalize_lower query) = [normalize_lower query]) as Halts.
  { unfold alternatives. apply fold_left_unchanged. intros cv Hcv.
    pose proof contraction_table_plain as Hplain. rewrite forallb_forall in Hplain.
    pose proof contraction_table_marks as Hmarks. rewrite forallb_forall in Hmarks.
    specialize (Hplain cv Hcv). specialize (Hmarks cv Hcv).
    apply andb_true_iff in Hplain as [Hkey _]. rewrite (lower_plain cv.1 Hkey).
    destruct (str_in cv.1 (normalize_lower query)) eqn:E; [|done].
    apply orb_true_iff in Hmarks as [Hm|Hm].
    - pose proof (str_in_trans _ _ _ Hm E) as H. rewrite Hquote in H. discriminate H.
    - pose proof (str_in_trans _ _ _ Hm E) as H. rewrite Hspace in H. discriminate H. }
  split; [done|]. rewrite exact_search_perm.
  rewrite (snd_omap_filter _
             (fun msg => str_in (normalize_lower query)
                           (normalize_lower (msg_get msg "text" [])))); [done|].
  intros msg. rewrite exact_entry_match, Halts. cbn beta. cbn [exact_match].
  destruct (str_in (normalize_lower query) (normalize_lower (msg_get msg "text" [])));
    [eexists; reflexivity | done].
Qed.

Lemma fold_quote_idemp (c : char) : fold_quote (fold_quote c) = fold_quote c.
Proof.
  unfold fold_quote.
  destruct (N.eqb_spec c right_quote) as [->|H1]; [done|].
  destruct (N.eqb_spec c left_quote) as [->|H2]; [done|].
  destruct (N.eqb_spec c right_quote); [done|]. by destruct (N.eqb_spec c left_quote).
Qed.

Lemma exact_search_sublist (self : SearchManager) (query : str) (messages : list message) :
  List.map snd (_exact_search self query messages) ⊆+ messages.
Proof.
  rewrite exact_search_perm. apply sublist_submseteq, snd_omap_sublist.
  intros msg y. rewrite exact_entry_match.
  destruct (exact_match _ _ _ _); [|done]. by intros [= <-].
Qed.
End MoreExact.

(** ** More on the regex search *)

Lemma find_none {A : Type} (p : A -> bool) (l : list A) :
  (forall x, In x l -> p x = false) -> List.find p l = None.
Proof.
  induction l as [|x l IH]; simpl; intros H; [done|].
  rewrite H by by left. apply IH. intros; apply H; by right.
Qed.

Lemma contraction_terms_marks :
  forallb (fun e : str * list str => is_plain e.1 && str_in (py "'") e.1) contraction_terms
  = true.
Proof. by vm_compute. Qed.

Section MoreRegex.
Context {U : Unicodedata} {R : Re} {PF : PyFloat}.

Lemma regex_loop_collect (self : SearchManager) (p : pattern) (messages : list message) :
  fold_left (regex_step (mode_weight self "regex") p) messages []
  = omap (regex_entry self p) messages.
Proof.
  rewrite <- (app_nil_l (omap _ _)), <- fold_left_collect.
  apply fold_left_same. intros results msg. unfold regex_step, regex_entry, regex_score.
  destruct (normalize (msg_get msg "text" [])) as [|c text]; [done|].
  case_decide; [done|]. by destruct (finditer p (c :: text)).
Qed.

Lemma regex_search_compiled (self : SearchManager) (query : str) (messages : list message)
    (p : pattern) :
  re_compile (compiled_source self query) (flags_of (regex_options_of self)) = Some p ->
  _regex_search self query messages = sort_desc (omap (regex_entry self p) messages).
Proof.
  intros Hp. unfold _regex_search. by rewrite Hp, regex_loop_collect.
Qed.

Lemma regex_member (self : SearchManager) (query : str) (messages : list message)
    (p : pattern) (msg : message) :
  re_compile (compiled_source self query) (flags_of (regex_options_of self)) = Some p ->
  In msg messages ->
  (0 < length (normalize (msg_get msg "text" [])))%nat ->
  (0 < length (finditer p (normalize (msg_get msg "text" []))))%nat ->
  exists s, In (s, msg) (_regex_search self query messages).
Proof.
  intros Hp Hmsg Htext Hfound.
  destruct (regex_entry self p msg) as [r|] eqn:E.
  - exists r.1. apply list_elem_of_In.
    rewrite (regex_search_compiled self query messages p Hp), sort_desc_perm.
    apply list_elem_of_omap. exists msg. split; [by apply list_elem_of_In|].
    rewrite E. f_equal. unfold regex_entry in E. case_decide; [done|].
    destruct (finditer p _); [done|]. injection E as <-. done.
  - exfalso. unfold regex_entry in E. case_decide as Hnil.
    + rewrite Hnil in Htext. simpl in Htext. lia.
    + destruct (finditer p _); [simpl in Hfound; lia | done].
Qed.
(** X9. When the pattern compiles, the regex search returns, sorted, one
    result for each message whose normalized text is not empty and has a
    match, scored
    [weight * (0.6 + 0.2*min(matchCount, 5) + 0.2*(1 - firstStart/len(text)))];
    a message with an empty or absent text is never returned. *)
Theorem regex_search_scoring (self : SearchManager) (query : str) (messages : list message)
    (p : pattern) :
  re_compile (compiled_source self query) (flags_of (regex_options_of self)) = Some p ->
  _regex_search self query messages ≡ₚ omap (regex_entry self p) messages
  /\ (forall r, r ∈ _regex_search self query messages ->
        normalize (msg_get r.2 "text" []) <> []).
Proof.
  intros Hp. rewrite (regex_search_compiled _ _ _ p Hp). split; [apply sort_desc_perm|].
  intros r. rewrite sort_desc_perm, list_elem_of_omap. intros (msg & _ & Hr).
  unfold regex_entry in Hr. case_decide; [done|].
  destruct (finditer p _); [done|]. by injection Hr as <-.
Qed.

(** X10. With a limit [max_pattern_length] that is not negative (1000 when
    the option is absent), the pattern handed to [re.compile] is the rewritten
    query cut to its first [max_pattern_length] characters. *)
Theorem compiled_source_bound (self : SearchManager) (query : str) :
  0 <= default 1000 (max_pattern_length (regex_options_of self)) ->
  compiled_source self query
  = take (Z.to_nat (default 1000 (max_pattern_length (regex_options_of self))))
         (flexible_query query)
  /\ Z.of_nat (length (compiled_source self query))
     <= default 1000 (max_pattern_length (regex_options_of self)).
Proof.
  intros Hmax. unfold compiled_source.
  set (max_length := default 1000 (max_pattern_length (regex_options_of self))) in *.
  cbn zeta. destruct (Z.ltb_spec max_length (Z.of_nat (length (flexible_query query)))).
  - unfold slice_to. destruct (Z.ltb_spec max_length 0); [lia|].
    split; [done|]. rewrite length_take. lia.
  - rewrite take_ge by lia. split; [done | lia].
Qed.

(** X11. A query without apostrophe, before and after lowercasing, is not
    rewritten: the pattern is the normalized query, so a plain regular
    expression reaches [re.compile] as written. *)
Theorem flexible_query_plain `{!UnicodeLaws U} (query : str) :
  str_in (py "'") (normalize query) = false ->
  str_in (py "'") (lower (normalize query)) = false ->
  flexible_query query = normalize query.
Proof.
  intros Hquote Hlower. unfold flexible_query. rewrite contraction_loop_find.
  rewrite find_none; [cbn [fst snd]; by rewrite Hquote|].
  intros e He. pose proof contraction_terms_marks as Hmarks.
  rewrite forallb_forall in Hmarks. specialize (Hmarks e He).
  apply andb_true_iff in Hmarks as [Hplain Hmark].
  rewrite (lower_plain e.1 Hplain).
  destruct (str_in e.1 (lower (normalize query))) eqn:E; [|done].
  pose proof (str_in_trans _ _ _ Hmark E) as H. rewrite Hlower in H. discriminate H.
Qed.

(** X12. Smart single quotes in the query count as apostrophes: replacing
    them gives the same exact and regex results (for a query that is its own
    NFKD form, before and after the replacement). *)
Theorem smart_quotes_equivalent (self : SearchManager) (query : str)
    (messages : list message) :
  nfkd query = query ->
  nfkd (List.map fold_quote query) = List.map fold_quote query ->
  _exact_search self query messages = _exact_search self (List.map fold_quote query) messages
  /\ _regex_search self query messages
     = _regex_search self (List.map fold_quote query) messages.
Proof.
  intros Hq Hplain.
  assert (normalize (List.map fold_quote query) = normalize query) as Hnorm.
  { rewrite !normalize_map, Hq, Hplain, List.map_map.
    apply List.map_ext. apply fold_quote_idemp. }
  assert (_exact_search self query messages
          = _exact_search self (List.map fold_quote query) messages) as Hexact.
  { unfold _exact_search, normalize_lower. by rewrite Hnorm. }
  split; [done|].
  unfold _regex_search, compiled_source, flexible_query. by rewrite Hnorm, Hexact.
Qed.

Lemma regex_search_sublist (self : SearchManager) (query : str) (messages : list message) :
  List.map snd (_regex_search self query messages) ⊆+ messages.
Proof.
  unfold _regex_search. destruct (re_compile _ _) as [p|].
  - rewrite regex_loop_collect, sort_desc_perm.
    apply sublist_submseteq, snd_omap_sublist.
    intros msg y. unfold regex_entry. case_decide; [done|].
    destruct (finditer p _); [done|]. by intros [= <-].
  - apply exact_search_sublist.
Qed.

Lemma hybrid_results_from (self : SearchManager) (query : str) (messages : list message)
    (c : float * message) :
  In c (hybrid_results self query messages) -> c.2 ∈ messages.
Proof.
  unfold hybrid_results. intros Hc. apply in_app_or in Hc as [Hc|Hc].
  - destruct (mode_enabled self "exact"); [|done].
    apply in_map_iff in Hc as (r & <- & Hr). simpl.
    eapply elem_of_submseteq; [|apply exact_search_sublist].
    apply list_elem_of_In, in_map_iff. eauto.
  - destruct (mode_enabled self "regex"); [|done].
    apply in_map_iff in Hc as (r & <- & Hr). simpl.
    eapply elem_of_submseteq; [|apply regex_search_sublist].
    apply list_elem_of_In, in_map_iff. eauto.
Qed.

Lemma hybrid_search_from (self : SearchManager) (query : str) (messages : list message)
    (r : float * message) :
  In r (_hybrid_search self query messages) -> r.2 ∈ messages.
Proof.
  intros Hr. apply hybrid_search_entry in Hr as (_ & _ & _ & Hlast).
  apply last_In, in_map_iff in Hlast as (c & <- & Hc).
  apply filter_In in Hc as [Hc _]. by apply hybrid_results_from in Hc.
Qed.

(** X13. No search invents or repeats messages: the messages of the exact and
    of the regex results form a sub-multiset of the input, and in any mode
    every returned message is one of the input and the results are no more
    than the messages. *)
Theorem search_results_from_input (self : SearchManager) (query : str)
    (messages : list message) :
  List.map snd (_exact_search self query messages) ⊆+ messages
  /\ List.map snd (_regex_search self query messages) ⊆+ messages
  /\ (forall mode results, search self query messages mode = Ok results ->
        (forall r, r ∈ results -> r.2 ∈ messages)
        /\ (length results <= length messages)%nat).
Proof.
  split; [apply exact_search_sublist|]. split; [apply regex_search_sublist|].
  intros mode results Hsearch.
  assert (forall l : list (float * message), List.map snd l ⊆+ messages ->
            (forall r, r ∈ l -> r.2 ∈ messages) /\ (length l <= length messages)%nat) as Hsub.
  { intros l Hl. split.
    - intros r Hr. eapply elem_of_submseteq; [|exact Hl].
      apply list_elem_of_In, in_map, list_elem_of_In, Hr.
    - apply submseteq_length in Hl. by rewrite length_map in Hl. }
  destruct (search_cases _ _ _ _ _ Hsearch) as [-> | [-> | ->]].
  - apply Hsub, exact_search_sublist.
  - apply Hsub, regex_search_sublist.
  - split.
    + intros r Hr. by apply (hybrid_search_from self query), list_elem_of_In.
    + rewrite <- (length_map msg_name), <- (length_map (fun m => msg_get m "name" []) messages).
      apply NoDup_incl_length; [apply (hybrid_search_names self query messages)|].
      intros n Hn. apply in_map_iff in Hn as (r & <- & Hr).
      apply in_map_iff. exists r.2. split; [done|].
      by apply list_elem_of_In, (hybrid_search_from self query).
Qed.

End MoreRegex.

(** ** Ties, whitespace and the hybrid search with one mode *)

Section Ties.
Context {U : Unicodedata} {R : Re} {PF : PyFloat}.
Context {ordinary : float -> Prop} {FO : FloatOrder PF ordinary}.

Lemma sort_insert_ties (s : float) (x : float * message) (l : list (float * message)) :
  ordinary s ->
  List.filter (tied s) (sort_insert x l) = List.filter (tied s) (x :: l).
Proof.
  intros Hs. induction l as [|y l IH]; [done|].
  cbn [sort_insert]. destruct (flt x.1 y.1) eqn:E; [|done].
  cbn [List.filter] in *. rewrite IH.
  destruct (tied s y) eqn:Ey, (tied s x) eqn:Ex; try done.
  exfalso. unfold tied in Ex, Ey.
  apply andb_true_iff in Ex as [Ex _]. apply andb_true_iff in Ey as [_ Ey].
  apply negb_true_iff in Ex, Ey.
  pose proof (flt_negtrans x.1 s y.1 Hs Ex Ey). congruence.
Qed.

Lemma sort_desc_ties (s : float) (l : list (float * message)) :
  ordinary s -> List.filter (tied s) (sort_desc l) = List.filter (tied s) l.
Proof.
  intros Hs. induction l as [|x l IH]; [done|].
  cbn [sort_desc foldr]. fold (sort_desc l). rewrite sort_insert_ties by done.
  cbn [List.filter]. by rewrite IH.
Qed.

(** X15. Results whose scores tie come in the order of their messages in the
    input: the sort moves no result past another of the same score. *)
Theorem search_ties_keep_order (self : SearchManager) (query : str)
    (messages : list message) (s : float) :
  ordinary s ->
  List.filter (tied s) (_exact_search self query messages)
  = List.filter (tied s) (omap (exact_entry self query) messages)
  /\ (forall p,
        re_compile (compiled_source self query) (flags_of (regex_options_of self)) = Some p ->
        List.filter (tied s) (_regex_search self query messages)
        = List.filter (tied s) (omap (regex_entry self p) messages)).
Proof.
  intros Hs. split.
  - unfold _exact_search. rewrite exact_loop_collect. by apply sort_desc_ties.
  - intros p Hp. rewrite (regex_search_compiled self query messages p Hp).
    by apply sort_desc_ties.
Qed.
End Ties.

Lemma lstrip_idemp (s : str) : lstrip (lstrip s) = lstrip s.
Proof.
  induction s as [|c s IH]; [done|]. simpl.
  destruct (isspace c) eqn:E; [done|]. simpl. by rewrite E.
Qed.

Lemma lstrip_head (s : str) :
  lstrip s = [] \/ exists c t, lstrip s = c :: t /\ isspace c = false.
Proof.
  induction s as [|c s IH]; [by left|]. simpl.
  destruct (isspace c) eqn:E; [done|]. right. by exists c, s.
Qed.

Lemma lstrip_snoc (l : str) (c : char) :
  isspace c = false -> exists l', lstrip (l ++ [c]) = l' ++ [c].
Proof.
  intros Hc. induction l as [|x l IH]; simpl.
  - rewrite Hc. by exists [].
  - destruct (isspace x); [done|]. by exists (x :: l).
Qed.

Lemma strip_idemp (s : str) : strip (strip s) = strip s.
Proof.
  unfold strip. destruct (lstrip_head s) as [->|(c & t & -> & Hc)]; [done|].
  change (rev (c :: t)) with (rev t ++ [c]).
  destruct (lstrip_snoc (rev t) c Hc) as [l' Hl'].
  pose proof (lstrip_idemp (rev t ++ [c])) as Hidemp.
  rewrite Hl' in *. rewrite rev_app_distr.
  change (rev [c] ++ rev l') with (c :: rev l').
  cbn [lstrip]. rewrite Hc.
  change (rev (c :: rev l')) with (rev (rev l') ++ [c]).
  by rewrite rev_involutive, Hidemp, rev_app_distr.
Qed.

Lemma submseteq_NoDup_l {A : Type} (l k : list A) : l ⊆+ k -> List.NoDup k -> List.NoDup l.
Proof.
  intros H Hk. apply NoDup_ListNoDup. apply NoDup_ListNoDup in Hk.
  apply submseteq_Permutation in H as [k' Hk'].
  rewrite Hk' in Hk. by apply NoDup_app in Hk as [? _].
Qed.

Section MoreHybrid.
Context {U : Unicodedata} {R : Re} {PF : PyFloat}.
Local Open Scope pyfloat_scope.

(** X16. The hybrid search ignores the whitespace around the query: stripping
    it beforehand changes nothing. *)
Theorem hybrid_search_strips (self : SearchManager) (query : str) (messages : list message) :
  strip (strip query) = strip query
  /\ _hybrid_search self (strip query) messages = _hybrid_search self query messages.
Proof.
  split; [apply strip_idemp|]. unfold _hybrid_search. by rewrite strip_idemp.
Qed.

(** X17. The hybrid search runs the enabled modes only and never falls back:
    with neither mode enabled, mode ["hybrid"] returns the empty list. *)
Theorem hybrid_without_modes (self : SearchManager) (query : str) (messages : list message) :
  mode_enabled self "exact" = false ->
  mode_enabled self "regex" = false ->
  search self query messages (Some "hybrid"%string) = Ok [].
Proof.
  intros He Hr. unfold search. cbn. unfold _hybrid_search. by rewrite He, Hr.
Qed.

Lemma dict_get_fresh {V : Type} (k : str) (d : list (str * V)) :
  ~ In k (List.map fst d) -> dict_get k d = None.
Proof.
  induction d as [|[k' v] d IH]; simpl; [done|]. intros Hk.
  rewrite str_eqb_ne by (intros ->; apply Hk; by left). apply IH. tauto.
Qed.

Lemma dict_set_fresh {V : Type} (k : str) (v : V) (d : list (str * V)) :
  ~ In k (List.map fst d) -> dict_set k v d = d ++ [(k, v)].
Proof.
  induction d as [|[k' v'] d IH]; simpl; [done|]. intros Hk.
  rewrite str_eqb_ne by (intros ->; apply Hk; by left). rewrite IH by tauto. done.
Qed.

Lemma accumulate_distinct (cs : list (float * message)) :
  List.NoDup (List.map msg_name cs) ->
  (forall c, In c cs -> msg_name c <> []) ->
  fold_left accumulate cs ([], [])
  = (List.map (fun c => (msg_name c, c.2)) cs,
     List.map (fun c => (msg_name c, f0_0 + c.1)) cs).
Proof.
  induction cs as [|c cs IH] using rev_ind; [done|].
  rewrite List.map_app. intros Hnd Hne. rewrite fold_left_app.
  apply NoDup_remove in Hnd as [Hnd Hfresh]. rewrite app_nil_r in Hnd, Hfresh.
  rewrite IH by (try done; intros; apply Hne, in_or_app; by left).
  cbn [fold_left]. unfold accumulate.
  destruct (msg_name c) as [|x n] eqn:E.
  { exfalso. apply (Hne c); [apply in_or_app; right; by left | done]. }
  rewrite <- E. rewrite <- E in Hfresh. cbn [fst snd].
  rewrite dict_get_fresh, !dict_set_fresh; rewrite ?List.map_map; try exact Hfresh.
  by rewrite !List.map_app.
Qed.

Lemma combined_distinct (cs : list (float * message)) :
  List.NoDup (List.map msg_name cs) ->
  combined_results (List.map (fun c => (msg_name c, c.2)) cs,
                    List.map (fun c => (msg_name c, f0_0 + c.1)) cs)
  = List.map (fun c => (f0_0 + c.1, c.2)) cs.
Proof.
  intros Hnd. unfold combined_results. cbn [fst snd].
  assert (forall c, In c cs ->
            dict_get (msg_name c) (List.map (fun c => (msg_name c, c.2)) cs) = Some c.2) as Hget.
  { intros c Hc. apply dict_In_get; [by rewrite List.map_map|].
    apply in_map_iff. by exists c. }
  revert Hget. generalize (List.map (fun c => (msg_name c, c.2)) cs). intros d Hget.
  clear Hnd. induction cs as [|c cs IH]; [done|].
  cbn [List.map omap list_omap]. cbn [fst snd]. rewrite Hget by by left.
  simpl. f_equal. apply IH. intros; apply Hget; by right.
Qed.

(** X18. With the exact mode alone enabled and messages of pairwise distinct,
    non-empty identities, the hybrid search returns the exact results of the
    stripped query, each score [s] replaced by [0.0 + s * hybrid_weights.exact]. *)
Theorem hybrid_exact_only (self : SearchManager) (query : str) (messages : list message) :
  mode_enabled self "exact" = true ->
  mode_enabled self "regex" = false ->
  List.NoDup (List.map (fun msg => msg_get msg "name" []) messages) ->
  (forall msg, msg ∈ messages -> msg_get msg "name" [] <> []) ->
  _hybrid_search self query messages
  = sort_desc (List.map (fun r => (f0_0 + r.1 * hybrid_weight self "exact" f1_0, r.2))
                 (_exact_search self (strip query) messages)).
Proof.
  intros He Hr Hnd Hne. rewrite hybrid_search_accumulate.
  unfold hybrid_results. rewrite He, Hr, app_nil_r.
  set (cs := List.map _ (_exact_search self (strip query) messages)).
  assert (List.map (fun c : float * message => c.2) cs
          = List.map snd (_exact_search self (strip query) messages)) as Hsnd.
  { unfold cs. rewrite List.map_map. done. }
  assert (List.NoDup (List.map msg_name cs)) as Hnames.
  { replace (List.map msg_name cs)
      with (List.map (fun msg => msg_get msg "name" []) (List.map (fun c => c.2) cs))
      by (by rewrite List.map_map).
    rewrite Hsnd. eapply submseteq_NoDup_l; [|exact Hnd].
    apply fmap_submseteq, exact_search_sublist. }
  rewrite accumulate_distinct, combined_distinct; try done.
  - unfold cs. by rewrite List.map_map.
  - intros c Hc. apply Hne. eapply elem_of_submseteq; [|apply (exact_search_sublist self (strip query))].
    rewrite <- Hsnd. apply list_elem_of_In, in_map_iff. by exists c.
Qed.
End MoreHybrid.

(** ** The hybrid search on messages of distinct identities *)

Lemma NoDup_map_inj {A B : Type} (f : A -> B) (l : list A) (x y : A) :
  List.NoDup (List.map f l) -> In x l -> In y l -> f x = f y -> x = y.
Proof.
  induction l as [|a l IH]; simpl; [done|].
  intros Hnd Hx Hy Hf. inversion Hnd as [|? ? Hnotin Hnd']; subst.
  destruct Hx as [->|Hx], Hy as [->|Hy]; try done.
  - exfalso. apply Hnotin. rewrite Hf. by apply in_map.
  - exfalso. apply Hnotin. rewrite <- Hf. by apply in_map.
  - by apply IH.
Qed.

Section Distinct.
Context {U : Unicodedata} {R : Re} {PF : PyFloat}.
Local Open Scope pyfloat_scope.

Variable messages : list message.
Hypothesis names_distinct :
  List.NoDup (List.map (fun msg => msg_get msg "name" []) messages).

Lemma weighted_named (rs : list (float * message)) (w : float) (r : float * message) :
  List.map snd rs ⊆+ messages -> In r rs ->
  List.filter (named (msg_get r.2 "name" [])) (List.map (fun x => (x.1 * w, x.2)) rs)
  = [(r.1 * w, r.2)].
Proof.
  intros Hsub Hr.
  apply (filter_unique msg_name (List.map (fun x => (x.1 * w, x.2)) rs) (r.1 * w, r.2)).
  - rewrite List.map_map.
    replace (List.map (fun x : float * message => msg_name (x.1 * w, x.2)) rs)
      with (List.map (fun msg => msg_get msg "name" []) (List.map snd rs))
      by (by rewrite List.map_map).
    eapply submseteq_NoDup_l; [|exact names_distinct]. by apply fmap_submseteq.
  - apply in_map_iff. by exists r.
Qed.

Lemma weighted_absent (rs : list (float * message)) (w : float) (msg : message) :
  List.map snd rs ⊆+ messages -> msg ∈ messages -> ~ In msg (List.map snd rs) ->
  List.filter (named (msg_get msg "name" [])) (List.map (fun x => (x.1 * w, x.2)) rs) = [].
Proof.
  intros Hsub Hmsg Hnotin.
  apply (filter_none msg_name). intros y Hy Hname.
  apply in_map_iff in Hy as (x & <- & Hx). apply Hnotin.
  assert (x.2 = msg) as <-; [|by apply in_map].
  apply (NoDup_map_inj (fun m => msg_get m "name" []) messages); try done.
  - apply list_elem_of_In. eapply elem_of_submseteq; [|exact Hsub].
    by apply list_elem_of_In, in_map.
  - by apply list_elem_of_In.
Qed.

Lemma hybrid_member (self : SearchManager) (query : str) (msg : message)
    (g : list (float * message)) :
  msg_get msg "name" [] <> [] ->
  contributions self query messages (msg_get msg "name" []) = g ->
  last (List.map snd g) = Some msg ->
  In (total g, msg) (_hybrid_search self query messages).
Proof.
  intros Hne Hg Hlast. apply hybrid_search_entry. unfold msg_name. cbn [fst snd].
  rewrite Hg. repeat split; try done. intros ->. discriminate Hlast.
Qed.

(** X19. On messages of pairwise distinct identities, with both modes enabled,
    a message found by both modes gets [0.0 + exact*w_exact + regex*w_regex],
    one found by the exact search only [0.0 + exact*w_exact], and one found
    by the regex search only [0.0 + regex*w_regex]. *)
Theorem hybrid_distinct_identities (self : SearchManager) (query : str) (msg : message)
    (se sr : float) :
  mode_enabled self "exact" = true ->
  mode_enabled self "regex" = true ->
  msg_get msg "name" [] <> [] ->
  let exact := _exact_search self (strip query) messages in
  let regex := _regex_search self (strip query) messages in
  let we := hybrid_weight self "exact" f1_0 in
  let wr := hybrid_weight self "regex" f1_2 in
  (In (se, msg) exact -> In (sr, msg) regex ->
   In (f0_0 + se * we + sr * wr, msg) (_hybrid_search self query messages))
  /\ (In (se, msg) exact -> ~ In msg (List.map snd regex) ->
      In (f0_0 + se * we, msg) (_hybrid_search self query messages))
  /\ (In (sr, msg) regex -> ~ In msg (List.map snd exact) ->
      In (f0_0 + sr * wr, msg) (_hybrid_search self query messages)).
Proof.
  intros He Hr Hne exact regex we wr.
  assert (forall n, contributions self query messages n
                    = List.filter (named n) (List.map (fun x => (x.1 * we, x.2)) exact)
                      ++ List.filter (named n) (List.map (fun x => (x.1 * wr, x.2)) regex))
    as Hsplit.
  { intros n. unfold contributions, hybrid_results. by rewrite He, Hr, List.filter_app. }
  pose proof (exact_search_sublist self (strip query) messages) as Hex.
  pose proof (regex_search_sublist self (strip query) messages) as Hrx.
  assert (forall (s : float) (rs : list (float * message)),
            List.map snd rs ⊆+ messages -> In (s, msg) rs -> msg ∈ messages) as Hin.
  { intros s rs Hsub Hs. eapply elem_of_submseteq; [|exact Hsub].
    apply list_elem_of_In, in_map_iff. by exists (s, msg). }
  split; [|split].
  - intros Hse Hsr.
    apply (hybrid_member self query msg [(se * we, msg); (sr * wr, msg)]); try done.
    pose proof (weighted_named exact we (se, msg) Hex Hse) as H1.
    pose proof (weighted_named regex wr (sr, msg) Hrx Hsr) as H2.
    cbn [fst snd] in H1, H2. by rewrite Hsplit, H1, H2.
  - intros Hse Hnot.
    apply (hybrid_member self query msg [(se * we, msg)]); try done.
    pose proof (weighted_named exact we (se, msg) Hex Hse) as H1.
    pose proof (weighted_absent regex wr msg Hrx (Hin se exact Hex Hse) Hnot) as H2.
    cbn [fst snd] in H1. by rewrite Hsplit, H1, H2.
  - intros Hsr Hnot.
    apply (hybrid_member self query msg [(sr * wr, msg)]); try done.
    pose proof (weighted_absent exact we msg Hex (Hin sr regex Hrx Hsr) Hnot) as H1.
    pose proof (weighted_named regex wr (sr, msg) Hrx Hsr) as H2.
    cbn [fst snd] in H2. by rewrite Hsplit, H1, H2.
Qed.

(** X20. When the pattern of the query does not compile, the hybrid search
    with both modes enabled counts the exact score of a message twice, once
    under each hybrid weight: [0.0 + s*w_exact + s*w_regex]. *)
Theorem hybrid_malformed_pattern (self : SearchManager) (query : str) (msg : message)
    (s : float) :
  mode_enabled self "exact" = true ->
  mode_enabled self "regex" = true ->
  re_compile (compiled_source self (strip query)) (flags_of (regex_options_of self)) = None ->
  msg_get msg "name" [] <> [] ->
  In (s, msg) (_exact_search self (strip query) messages) ->
  In (f0_0 + s * hybrid_weight self "exact" f1_0 + s * hybrid_weight self "regex" f1_2, msg)
     (_hybrid_search self query messages).
Proof.
  intros He Hr Hcompile Hne Hs.
  assert (_regex_search self (strip query) messages
          = _exact_search self (strip query) messages) as Hregex.
  { unfold _regex_search. by rewrite Hcompile. }
  pose proof (exact_search_sublist self (strip query) messages) as Hex.
  apply (hybrid_member self query msg
           [(s * hybrid_weight self "exact" f1_0, msg);
            (s * hybrid_weight self "regex" f1_2, msg)]); try done.
  pose proof (weighted_named _ (hybrid_weight self "exact" f1_0) (s, msg) Hex Hs) as H1.
  pose proof (weighted_named _ (hybrid_weight self "regex" f1_2) (s, msg) Hex Hs) as H2.
  cbn [fst snd] in H1, H2.
  unfold contributions, hybrid_results. by rewrite He, Hr, Hregex, List.filter_app, H1, H2.
Qed.
End Distinct.

(** ** The further properties on concrete inputs *)

Lemma names_distinct_check (l : list message) :
  bool_decide (NoDup (List.map (fun msg : message => msg_get msg "name" []) l)) = true ->
  List.NoDup (List.map (fun msg : message => msg_get msg "name" []) l).
Proof. intros H. apply NoDup_ListNoDup. by apply bool_decide_eq_true in H. Qed.

Lemma names_nonempty_check (l : list message) :
  forallb (fun msg : message => negb (str_eqb (msg_get msg "name" []) [])) l = true ->
  forall msg, msg ∈ l -> msg_get msg "name" [] <> [].
Proof.
  rewrite forallb_forall. intros H msg Hmsg Hname.
  apply list_elem_of_In, H in Hmsg. rewrite Hname in Hmsg. done.
Qed.

Lemma search_exact_resolution_witness :
  let self := example_manager (PF := binary64) in
  resolved_mode self (Some "semantic"%string) = "exact"%string
  /\ search (U := ascii_unicode) (R := literal_re) self (py "message") example_messages
            (Some "semantic"%string)
     = Ok (_exact_search (U := ascii_unicode) self (py "message") example_messages).
Proof.
  intros self.
  assert (resolved_mode self (Some "semantic"%string) = "exact"%string) as H
    by (vm_compute; reflexivity).
  exact (conj H (@search_exact_resolution ascii_unicode literal_re binary64 self
                   (py "message") example_messages (Some "semantic"%string) H)).
Defined.


Lemma exact_direct_match_witness :
  let self := example_manager (PF := binary64) in
  let msg := mk_message "m3" "message" in
  msg ∈ example_messages
  /\ str_in (normalize_lower (U := ascii_unicode) (py "Message"))
            (normalize_lower (U := ascii_unicode) (msg_get msg "text" [])) = true
  /\ (direct_score self (normalize_lower (U := ascii_unicode) (py "Message"))
        (normalize_lower (U := ascii_unicode) (msg_get msg "text" [])), msg)
     ∈ _exact_search (U := ascii_unicode) self (py "Message") example_messages.
Proof.
  intros self msg.
  assert (msg ∈ example_messages) as Hmsg by (do 2 apply list_elem_of_further; apply list_elem_of_here).
  assert (str_in (normalize_lower (U := ascii_unicode) (py "Message"))
            (normalize_lower (U := ascii_unicode) (msg_get msg "text" [])) = true) as Hin
    by (vm_compute; reflexivity).
  exact (conj Hmsg (conj Hin (@exact_direct_match ascii_unicode binary64 self (py "Message")
                                example_messages msg Hmsg Hin))).
Defined.

Lemma exact_plain_query_witness :
  let self := example_manager (PF := binary64) in
  str_in (py "'") (normalize_lower (U := ascii_unicode) (py "first")) = false
  /\ str_in (py " ") (normalize_lower (U := ascii_unicode) (py "first")) = false
  /\ alternatives (U := ascii_unicode) (normalize_lower (U := ascii_unicode) (py "first"))
     = [normalize_lower (U := ascii_unicode) (py "first")]
  /\ List.map snd (_exact_search (U := ascii_unicode) self (py "first") example_messages)
     ≡ₚ List.filter
          (fun msg : message => str_in (normalize_lower (U := ascii_unicode) (py "first"))
                        (normalize_lower (U := ascii_unicode) (msg_get msg "text" [])))
          example_messages.
Proof.
  intros self.
  assert (str_in (py "'") (normalize_lower (U := ascii_unicode) (py "first")) = false) as H1
    by (vm_compute; reflexivity).
  assert (str_in (py " ") (normalize_lower (U := ascii_unicode) (py "first")) = false) as H2
    by (vm_compute; reflexivity).
  exact (conj H1 (conj H2 (@exact_plain_query ascii_unicode binary64 ascii_unicode_laws self
                             (py "first") example_messages H1 H2))).
Defined.

Lemma regex_search_scoring_witness :
  let self := example_manager (PF := binary64) in
  let p : pattern (Re := literal_re) := (true, py "message") in
  re_compile (Re := literal_re) (compiled_source (U := ascii_unicode) self (py "message"))
             (flags_of (regex_options_of self)) = Some p
  /\ _regex_search (U := ascii_unicode) (R := literal_re) self (py "message") example_messages
     ≡ₚ omap (regex_entry (U := ascii_unicode) (R := literal_re) self p) example_messages
  /\ (forall r, r ∈ _regex_search (U := ascii_unicode) (R := literal_re) self (py "message")
                      example_messages ->
        normalize (U := ascii_unicode) (msg_get r.2 "text" []) <> []).
Proof.
  intros self p.
  assert (re_compile (Re := literal_re) (compiled_source (U := ascii_unicode) self (py "message"))
            (flags_of (regex_options_of self)) = Some p) as H by (vm_compute; reflexivity).
  exact (conj H (@regex_search_scoring ascii_unicode literal_re binary64 self (py "message")
                   example_messages p H)).
Defined.

Lemma compiled_source_bound_witness :
  let self := example_manager (PF := binary64) in
  0 <= default 1000 (max_pattern_length (regex_options_of self))
  /\ compiled_source (U := ascii_unicode) self (py "message")
     = take (Z.to_nat (default 1000 (max_pattern_length (regex_options_of self))))
            (flexible_query (U := ascii_unicode) (py "message"))
  /\ Z.of_nat (length (compiled_source (U := ascii_unicode) self (py "message")))
     <= default 1000 (max_pattern_length (regex_options_of self)).
Proof.
  intros self.
  assert (0 <= default 1000 (max_pattern_length (regex_options_of self))) as H
    by (vm_compute; discriminate).
  exact (conj H (@compiled_source_bound ascii_unicode binary64 self (py "message") H)).
Defined.

Lemma flexible_query_plain_witness :
  str_in (py "'") (normalize (U := ascii_unicode) (py "fir.t")) = false
  /\ str_in (py "'") (lower (Unicodedata := ascii_unicode) (normalize (U := ascii_unicode) (py "fir.t"))) = false
  /\ flexible_query (U := ascii_unicode) (py "fir.t") = normalize (U := ascii_unicode) (py "fir.t").
Proof.
  assert (str_in (py "'") (normalize (U := ascii_unicode) (py "fir.t")) = false) as H1
    by (vm_compute; reflexivity).
  assert (str_in (py "'") (lower (Unicodedata := ascii_unicode)
                             (normalize (U := ascii_unicode) (py "fir.t"))) = false) as H2
    by (vm_compute; reflexivity).
  exact (conj H1 (conj H2 (@flexible_query_plain ascii_unicode ascii_unicode_laws
                             (py "fir.t") H1 H2))).
Defined.

Lemma smart_quotes_equivalent_witness :
  let self := example_manager (PF := binary64) in
  nfkd (Unicodedata := ascii_unicode) smart_query = smart_query
  /\ nfkd (Unicodedata := ascii_unicode) (List.map fold_quote smart_query)
     = List.map fold_quote smart_query
  /\ _exact_search (U := ascii_unicode) self smart_query example_messages
     = _exact_search (U := ascii_unicode) self (List.map fold_quote smart_query) example_messages
  /\ _regex_search (U := ascii_unicode) (R := literal_re) self smart_query example_messages
     = _regex_search (U := ascii_unicode) (R := literal_re) self
         (List.map fold_quote smart_query) example_messages.
Proof.
  intros self.
  assert (nfkd (Unicodedata := ascii_unicode) smart_query = smart_query) as H1
    by (vm_compute; reflexivity).
  assert (nfkd (Unicodedata := ascii_unicode) (List.map fold_quote smart_query)
          = List.map fold_quote smart_query) as H2 by (vm_compute; reflexivity).
  exact (conj H1 (conj H2 (@smart_quotes_equivalent ascii_unicode literal_re binary64 self
                             smart_query example_messages H1 H2))).
Defined.

Lemma search_ties_keep_order_witness :
  let self := example_manager (PF := binary64) in
  let s : float (PyFloat := binary64) := 1%float in
  PrimFloat.is_nan s = false
  /\ List.filter (tied s) (_exact_search (U := ascii_unicode) self (py "s") example_messages)
     = List.filter (tied s) (omap (exact_entry (U := ascii_unicode) self (py "s")) example_messages)
  /\ (forall p,
        re_compile (Re := literal_re) (compiled_source (U := ascii_unicode) self (py "s"))
                   (flags_of (regex_options_of self)) = Some p ->
        List.filter (tied s)
          (_regex_search (U := ascii_unicode) (R := literal_re) self (py "s") example_messages)
        = List.filter (tied s)
            (omap (regex_entry (U := ascii_unicode) (R := literal_re) self p) example_messages)).
Proof.
  intros self s.
  assert (PrimFloat.is_nan s = false) as H by reflexivity.
  exact (conj H (@search_ties_keep_order ascii_unicode literal_re binary64 _ binary64_order
                   self (py "s") example_messages s H)).
Defined.

Lemma hybrid_without_modes_witness :
  let self := bare_manager (PF := binary64) in
  mode_enabled self "exact" = false
  /\ mode_enabled self "regex" = false
  /\ search (U := ascii_unicode) (R := literal_re) self (py "message") example_messages
            (Some "hybrid"%string) = Ok [].
Proof.
  intros self.
  assert (mode_enabled self "exact" = false) as H1 by (vm_compute; reflexivity).
  assert (mode_enabled self "regex" = false) as H2 by (vm_compute; reflexivity).
  exact (conj H1 (conj H2 (@hybrid_without_modes ascii_unicode literal_re binary64 self
                             (py "message") example_messages H1 H2))).
Defined.

Lemma hybrid_exact_only_witness :
  let self := exact_only_manager (PF := binary64) in
  mode_enabled self "exact" = true
  /\ mode_enabled self "regex" = false
  /\ List.NoDup (List.map (fun msg : message => msg_get msg "name" []) example_messages)
  /\ (forall msg : message, msg ∈ example_messages -> msg_get msg "name" [] <> [])
  /\ _hybrid_search (U := ascii_unicode) (R := literal_re) self (py " s ") example_messages
     = sort_desc (List.map (fun r : float * message =>
                              (fadd f0_0 (fmul r.1 (hybrid_weight self "exact" f1_0)), r.2))
                    (_exact_search (U := ascii_unicode) self (strip (py " s ")) example_messages)).
Proof.
  intros self.
  assert (mode_enabled self "exact" = true) as H1 by (vm_compute; reflexivity).
  assert (mode_enabled self "regex" = false) as H2 by (vm_compute; reflexivity).
  assert (List.NoDup (List.map (fun msg : message => msg_get msg "name" []) example_messages)) as H3
    by (apply names_distinct_check; vm_compute; reflexivity).
  assert (forall msg : message, msg ∈ example_messages -> msg_get msg "name" [] <> []) as H4
    by (apply names_nonempty_check; vm_compute; reflexivity).
  exact (conj H1 (conj H2 (conj H3 (conj H4
           (@hybrid_exact_only ascii_unicode literal_re binary64 self (py " s ")
              example_messages H1 H2 H3 H4))))).
Defined.

Lemma hybrid_distinct_identities_witness :
  let self := example_manager (PF := binary64) in
  let msg := mk_message "m3" "message" in
  let query := py " message " in
  let se := direct_score self (normalize_lower (U := ascii_unicode) (strip query))
              (normalize_lower (U := ascii_unicode) (msg_get msg "text" [])) in
  List.NoDup (List.map (fun msg : message => msg_get msg "name" []) example_messages)
  /\ mode_enabled self "exact" = true
  /\ mode_enabled self "regex" = true
  /\ msg_get msg "name" [] <> []
  /\ In (se, msg) (_exact_search (U := ascii_unicode) self (strip query) example_messages)
  /\ exists sr,
       In (sr, msg) (_regex_search (U := ascii_unicode) (R := literal_re) self (strip query)
                       example_messages)
       /\ In (fadd (fadd f0_0 (fmul se (hybrid_weight self "exact" f1_0)))
                   (fmul sr (hybrid_weight self "regex" f1_2)), msg)
             (_hybrid_search (U := ascii_unicode) (R := literal_re) self query example_messages).
Proof.
  intros self msg query se.
  assert (List.NoDup (List.map (fun msg : message => msg_get msg "name" []) example_messages))
    as Hnd by (apply names_distinct_check; vm_compute; reflexivity).
  assert (mode_enabled self "exact" = true) as He by (vm_compute; reflexivity).
  assert (mode_enabled self "regex" = true) as Hr by (vm_compute; reflexivity).
  assert (msg_get msg "name" [] <> []) as Hne by (vm_compute; discriminate).
  assert (In msg example_messages) as Hmsg by (right; right; left; reflexivity).
  assert (In (se, msg) (_exact_search (U := ascii_unicode) self (strip query) example_messages))
    as Hse by (apply exact_direct_member; [exact Hmsg | vm_compute; reflexivity]).
  destruct (@regex_member ascii_unicode literal_re binary64 self (strip query) example_messages
              (true, py "message") msg) as [sr Hsr];
    [vm_compute; reflexivity | exact Hmsg | vm_compute; lia | vm_compute; lia |].
  split; [exact Hnd|]. split; [exact He|]. split; [exact Hr|]. split; [exact Hne|].
  split; [exact Hse|]. exists sr. split; [exact Hsr|].
  exact (proj1 (@hybrid_distinct_identities ascii_unicode literal_re binary64 example_messages
                  Hnd self query msg se sr He Hr Hne) Hse Hsr).
Defined.

Lemma hybrid_malformed_pattern_witness :
  let self := example_manager (PF := binary64) in
  let msg := mk_message "b1" "call f(x now" in
  let query := py " f(x " in
  let s := direct_score self (normalize_lower (U := ascii_unicode) (strip query))
             (normalize_lower (U := ascii_unicode) (msg_get msg "text" [])) in
  List.NoDup (List.map (fun msg : message => msg_get msg "name" []) bracket_messages)
  /\ mode_enabled self "exact" = true
  /\ mode_enabled self "regex" = true
  /\ re_compile (Re := literal_re) (compiled_source (U := ascii_unicode) self (strip query))
                (flags_of (regex_options_of self)) = None
  /\ msg_get msg "name" [] <> []
  /\ In (s, msg) (_exact_search (U := ascii_unicode) self (strip query) bracket_messages)
  /\ In (fadd (fadd f0_0 (fmul s (hybrid_weight self "exact" f1_0)))
              (fmul s (hybrid_weight self "regex" f1_2)), msg)
        (_hybrid_search (U := ascii_unicode) (R := literal_re) self query bracket_messages).
Proof.
  intros self msg query s.
  assert (List.NoDup (List.map (fun msg : message => msg_get msg "name" []) bracket_messages))
    as Hnd by (apply names_distinct_check; vm_compute; reflexivity).
  assert (mode_enabled self "exact" = true) as He by (vm_compute; reflexivity).
  assert (mode_enabled self "regex" = true) as Hr by (vm_compute; reflexivity).
  assert (re_compile (Re := literal_re) (compiled_source (U := ascii_unicode) self (strip query))
            (flags_of (regex_options_of self)) = None) as Hp by (vm_compute; reflexivity).
  assert (msg_get msg "name" [] <> []) as Hne by (vm_compute; discriminate).
  assert (In (s, msg) (_exact_search (U := ascii_unicode) self (strip query) bracket_messages))
    as Hs by (apply exact_direct_member; [left; reflexivity | vm_compute; reflexivity]).
  split; [exact Hnd|]. split; [exact He|]. split; [exact Hr|]. split; [exact Hp|].
  split; [exact Hne|]. split; [exact Hs|].
  exact (@hybrid_malformed_pattern ascii_unicode literal_re binary64 bracket_messages
           Hnd self query msg s He Hr Hp Hne Hs).
Defined.
